(** * Anonymous chat bot: pairing engine, relay path and rate limiter

    A shallow embedding of [anon_bot.py] (the long-polling entry point).
    [api/webhook.py] carries the same functions statement for statement, so
    every definition below embeds both files.

    Conventions of the embedding.
    - Telegram user identifiers and the BIGINT columns are [Z].
    - Clock readings ([time.time()] and the store's [NOW()]) are [Z] counts of
      microseconds.  The only arithmetic the program performs on them is a
      difference of two readings compared with a constant, which is exact on
      the doubles [time.time()] returns for readings this close to one
      another, so integer ticks lose nothing.
    - The three tables have [user_id] as primary key: each is a [gmap Z _].
    - Handlers run one at a time; row locks and [SKIP LOCKED] have no effect
      in such runs and are not represented.
    - Calls to the transport ([bot.send_message], ...) are recorded, in
      order, in the [sent] component of the world; they are taken not to
      raise.  [logging.info] lines are left out, [logging.error] is kept.
    - Storage errors are represented where the pairing transaction can
      meet them: [create_pair] raises when the environment says the store
      refuses its statements, or when its [INSERT] names one key twice.
      Every other statement is taken to succeed.
    - Every handler is taken to get its connection from the pool.  The
      code does not hand the connection back on two paths (the arm of
      [next_match] for a user who is not in a chat, and a pairing that
      raises); the pool, its bound of 50 connections and the failure of
      the calls made once it is used up are not represented. *)

From Stdlib Require Import Ascii.
From stdpp Require Import gmap strings list fin_maps pretty.

Local Open Scope Z_scope.

(** ** Text screening: [check_forbidden] *)

Module Text.

(** [FORBIDDEN_WORDS = ['spam', 'badword']] *)
Definition FORBIDDEN_WORDS : list string := ["spam"; "badword"]%string.

(** [str.lower] on one character.  Only the letters A-Z are mapped: the code
    points outside ASCII that [str.lower] rewrites never yield a letter of
    the two forbidden words, so they cannot change the answer of
    [check_forbidden]. *)
Definition lower_char (c : ascii) : ascii :=
  let n := nat_of_ascii c in
  if ((65 <=? n) && (n <=? 90))%nat then ascii_of_nat (n + 32) else c.

Fixpoint lower (s : string) : string :=
  match s with
  | EmptyString => EmptyString
  | String c s' => String (lower_char c) (lower s')
  end.

(** [text.startswith(word)] *)
Fixpoint starts_with (word text : string) : bool :=
  match word, text with
  | EmptyString, _ => true
  | String a word', String b text' =>
      if decide (a = b) then starts_with word' text' else false
  | String _ _, EmptyString => false
  end.

(** [word in text] on Python strings: [word] occurs at some offset. *)
Fixpoint contains (word text : string) : bool :=
  starts_with word text ||
  match text with
  | EmptyString => false
  | String _ text' => contains word text'
  end.

(** [any(word in text.lower() for word in FORBIDDEN_WORDS)] *)
Definition check_forbidden (text : string) : bool :=
  existsb (λ word, contains word (lower text)) FORBIDDEN_WORDS.

(** What "is a substring of" means, independently of the scan above. *)
Definition substring (word text : string) : Prop :=
  ∃ pre post : string, text = (pre +:+ word +:+ post)%string.

End Text.

(** ** Rate limiter: [is_rate_limited] *)

Module RateLimiter.

(** One second, in clock ticks. *)
Definition second : Z := 1000000.

(** [rate_limits = defaultdict(list)]: a missing key reads as the empty list. *)
Definition stamps (rate_limits : gmap Z (list Z)) (user_id : Z) : list Z :=
  default [] (rate_limits !! user_id).

(** [[t for t in rate_limits[user_id] if now - t < 1]] *)
Definition recent (now : Z) (ts : list Z) : list Z :=
  filter (λ t, now - t < second) ts.

(** [is_rate_limited(user_id)], with the reading of [time.time()] as [now].
    Returns the boolean and the updated dictionary. *)
Definition is_rate_limited (now : Z) (user_id : Z) (rate_limits : gmap Z (list Z))
  : bool * gmap Z (list Z) :=
  let kept := recent now (stamps rate_limits user_id) in
  if (1 <=? length kept)%nat
  then (true, <[user_id := kept]> rate_limits)
  else (false, <[user_id := kept ++ [now]]> rate_limits).

(** The spec's [allow] is the negation of the code's [is_rate_limited]. *)
Definition allow (now : Z) (user_id : Z) (rate_limits : gmap Z (list Z))
  : bool * gmap Z (list Z) :=
  let '(limited, rl) := is_rate_limited now user_id rate_limits in
  (negb limited, rl).

End RateLimiter.

(** ** The store, the transport and the handlers *)

Module Bot.

Import Text RateLimiter.

(** *** Rows of the three tables

    [queues(user_id PK, gender, nick, timestamp)],
    [active_chats(user_id PK, partner_id, timestamp)],
    [user_genders(user_id PK, gender)]. *)

Record queue_row := QueueRow {
  q_gender : string;
  q_nick : string;
  q_timestamp : Z }.

Record chat_row := ChatRow {
  partner_id : Z;
  c_timestamp : Z }.

#[global] Instance queue_row_eq_dec : EqDecision queue_row.
Proof. solve_decision. Defined.

#[global] Instance chat_row_eq_dec : EqDecision chat_row.
Proof. solve_decision. Defined.

(** *** Outbound transport calls *)

(** [create_action_keyboard()] and [create_gender_keyboard()]. *)
Inductive keyboard := action_keyboard | gender_keyboard.

(** The texts the bot sends.  Fixed texts are constructors; the two that
    embed data carry it. *)
Inductive notice :=
| ChatStarted (partner_nick : string) (* chat started, partner shown as nick *)
| SearchingFemale (nick : string)     (* queued as nick, waiting for a woman *)
| SearchingMale (nick : string)       (* queued as nick, waiting for a man *)
| PairError                           (* error, try /start again *)
| StartError                          (* error, try again later *)
| AlreadyInChat                       (* you are already in a chat *)
| Welcome                             (* welcome, choose your gender *)
| GenderChosen                        (* gender chosen, now searching *)
| NextStarted                         (* next match started *)
| Stopped                             (* conversation stopped *)
| PartnerNext                         (* your partner moved to the next match *)
| PartnerStopped                      (* your partner stopped the conversation *)
| NotInChat                           (* you are not in a chat yet *)
| TooFast                             (* too fast, wait one second *)
| NoPartner                           (* no partner yet *)
| ForbiddenWord                       (* your message has a forbidden word *)
| RelayError                          (* error while sending, try again *)
| Relayed (body : string).            (* a relayed text, label included *)

(** The fields of an inbound Telegram message the handlers read. *)
Record message := Message {
  from_user : Z;
  chat_id : Z;
  message_id : Z;
  text : string;
  caption : option string }.

Inductive content_type :=
| text_msg | photo | sticker | video | voice | document | other.

Inductive effect :=
| send_message (chat : Z) (body : notice) (reply_markup : option keyboard)
| reply_to (m : message) (body : notice) (reply_markup : option keyboard)
| answer_callback_query (user_id : Z)
| edit_message_text (user_id : Z) (body : notice)
| logging_error (origin : string).

(** *** The world the handlers act on *)

Record world := World {
  queues : gmap Z queue_row;
  active_chats : gmap Z chat_row;
  user_genders : gmap Z string;
  rate_limits : gmap Z (list Z);
  sent : list effect }.

Definition initial : world := World ∅ ∅ ∅ ∅ [].

Definition with_queues (f : gmap Z queue_row → gmap Z queue_row) (w : world) : world :=
  World (f (queues w)) (active_chats w) (user_genders w) (rate_limits w) (sent w).

Definition with_active_chats (f : gmap Z chat_row → gmap Z chat_row) (w : world) : world :=
  World (queues w) (f (active_chats w)) (user_genders w) (rate_limits w) (sent w).

Definition with_user_genders (f : gmap Z string → gmap Z string) (w : world) : world :=
  World (queues w) (active_chats w) (f (user_genders w)) (rate_limits w) (sent w).

(** One use of [random] by [generate_pseudonym]: the value behind
    [random.choice] and the one behind [random.randint]. *)
Record draw := Draw { pick : nat; number : Z }.

(** What one handler invocation reads from outside the world: the clock,
    the two pseudonyms' worth of randomness it may draw, and whether the
    store refuses the pairing statements. *)
Record env := Env {
  now : Z;
  draw1 : draw;
  draw2 : draw;
  pairing_fails : bool }.

(** *** Handlers as state transformers that may raise *)

Inductive exn := StorageError | CardinalityViolation | TypeError.

Inductive outcome (A : Type) :=
| Return (a : A)
| Raised (e : exn).
Arguments Return {A} a.
Arguments Raised {A} e.

Definition M (A : Type) : Type := world → outcome A * world.

#[global] Instance M_ret : MRet M := λ A a w, (Return a, w).

#[global] Instance M_bind : MBind M := λ A B f m w,
  match m w with
  | (Return a, w') => f a w'
  | (Raised e, w') => (Raised e, w')
  end.

Definition raise {A} (e : exn) : M A := λ w, (Raised e, w).

(** [try: body  except Exception as e: handler]: what [body] did before it
    raised stays done. *)
Definition try_except {A} (body : M A) (handler : exn → M A) : M A := λ w,
  match body w with
  | (Return a, w') => (Return a, w')
  | (Raised e, w') => handler e w'
  end.

Definition emit (x : effect) : M unit := λ w,
  (Return tt, World (queues w) (active_chats w) (user_genders w) (rate_limits w)
                    (sent w ++ [x])).

Definition update (f : world → world) : M unit := λ w, (Return tt, f w).

(** Python truth values of an optional integer and of an optional string. *)
Definition truthy_int (o : option Z) : bool :=
  match o with
  | Some z => negb (z =? 0)
  | None => false
  end.

Definition truthy_str (o : option string) : bool :=
  match o with
  | Some s => negb (String.eqb s EmptyString)
  | None => false
  end.

(** *** Pseudonyms *)

Definition MALE_NICKNAMES : list string :=
  ["AnonGuy"; "MisterX"; "BroChat"; "DudeAnon"]%string.
Definition FEMALE_NICKNAMES : list string :=
  ["AnonGal"; "MissY"; "SisChat"; "LadyAnon"]%string.

(** [random.choice(seq)] and [random.randint(lo, hi)] on a drawn value. *)
Definition choice (seq : list string) (d : draw) : string :=
  nth (pick d mod length seq)%nat seq EmptyString.

Definition randint (lo hi : Z) (d : draw) : Z :=
  lo + number d `mod` (hi - lo + 1).

Definition generate_pseudonym (gender : string) (d : draw) : string :=
  let base :=
    if decide (gender = "male"%string) then choice MALE_NICKNAMES d
    else choice FEMALE_NICKNAMES d in
  (base +:+ pretty (randint 100 999 d))%string.

(** *** Waiting pool: the [queues] table *)

(** The rows [WHERE gender = %s], in the order the scan meets them. *)
Definition rows_of_gender (gender : string) (q : gmap Z queue_row)
  : list (Z * queue_row) :=
  filter (λ r, q_gender r.2 = gender) (map_to_list q).

(** [ORDER BY timestamp ... LIMIT 1]: a row of least timestamp.  Among rows
    of equal timestamp the store may return any; here it is the first the
    scan meets. *)
Fixpoint first_by_timestamp (rows : list (Z * queue_row))
  : option (Z * queue_row) :=
  match rows with
  | [] => None
  | r :: rows' =>
      match first_by_timestamp rows' with
      | Some r' =>
          if q_timestamp r.2 <=? q_timestamp r'.2 then Some r else Some r'
      | None => Some r
      end
  end.

(** [get_queue(gender)]: select the oldest row of that gender, delete it,
    commit, and return [(user_id, nick, gender)]; [None] when no row. *)
Definition get_queue (gender : string) : M (option (Z * string * string)) := λ w,
  match first_by_timestamp (rows_of_gender gender (queues w)) with
  | Some (user_id, row) =>
      (Return (Some (user_id, q_nick row, q_gender row)),
       with_queues (delete user_id) w)
  | None => (Return None, w)
  end.

(** [add_to_queue]: [INSERT ... ON CONFLICT (user_id) DO UPDATE SET gender,
    nick, timestamp=NOW()]; the inserted row takes [timestamp DEFAULT NOW()],
    so both arms write the same row. *)
Definition add_to_queue (e : env) (user_id : Z) (gender nick : string) : M unit :=
  update (with_queues (insert user_id (QueueRow gender nick (now e)))).

(** [remove_from_queue]: [DELETE FROM queues WHERE user_id=%s]. *)
Definition remove_from_queue (user_id : Z) : M unit :=
  update (with_queues (delete user_id)).

(** *** Session store: the [active_chats] table *)

(** [SELECT partner_id FROM active_chats WHERE user_id=%s] and [fetchone],
    reduced to the column read: [None] when there is no row. *)
Definition select_partner (user_id : Z) : M (option Z) := λ w,
  (Return (partner_id <$> active_chats w !! user_id), w).

(** One [VALUES] row [(uid, partner)] of
    [INSERT INTO active_chats (user_id, partner_id) ...
     ON CONFLICT (user_id) DO UPDATE SET partner_id=%s]:
    a fresh row takes [partner] and the default timestamp; a row already
    there keeps its timestamp and takes the statement's last parameter. *)
Definition upsert_chat (now : Z) (uid partner on_conflict : Z)
    (ac : gmap Z chat_row) : gmap Z chat_row :=
  match ac !! uid with
  | None => <[uid := ChatRow partner now]> ac
  | Some r => <[uid := ChatRow on_conflict (c_timestamp r)]> ac
  end.

(** The whole [INSERT], with parameters
    [(user_id, partner_id, partner_id, user_id, partner_id)]: the last one,
    used by [DO UPDATE], is [partner_id] for both rows.  When the two rows
    have the same key the command would touch one row twice, which the
    store refuses. *)
Definition insert_pair (now : Z) (user_id partner : Z) (ac : gmap Z chat_row)
  : option (gmap Z chat_row) :=
  if decide (user_id = partner) then None
  else Some (upsert_chat now partner user_id partner
               (upsert_chat now user_id partner partner ac)).

(** [UPDATE active_chats SET timestamp=NOW() WHERE user_id IN (%s, %s)] *)
Definition touch (now : Z) (user_id partner : Z) (ac : gmap Z chat_row)
  : gmap Z chat_row :=
  let refresh r := ChatRow (partner_id r) now in
  alter refresh partner (alter refresh user_id ac).

(** The pairing transaction of [try_pair_gender]: the [INSERT], the
    [UPDATE] and the commit.  Nothing of it is visible unless it commits.
    It raises when the store refuses a statement ([pairing_fails]) or when
    the [INSERT] names one key twice.  The code then leaves the connection
    checked out and its transaction open; that leak is not represented. *)
Definition create_pair (e : env) (user_id partner : Z) : M unit := λ w,
  if pairing_fails e then (Raised StorageError, w)
  else match insert_pair (now e) user_id partner (active_chats w) with
       | None => (Raised CardinalityViolation, w)
       | Some ac =>
           (Return tt, with_active_chats (λ _, touch (now e) user_id partner ac) w)
       end.

(** [DELETE FROM active_chats WHERE user_id IN (%s, %s)] *)
Definition delete_chats (a b : Z) : M unit :=
  update (with_active_chats (λ ac, delete b (delete a ac))).

(** [DELETE FROM active_chats WHERE user_id=%s] *)
Definition delete_chat (user_id : Z) : M unit :=
  update (with_active_chats (delete user_id)).

(** [DELETE FROM active_chats WHERE timestamp < NOW() - INTERVAL '5 minutes'] *)
Definition five_minutes : Z := 300 * second.

Definition expire (now : Z) (ac : gmap Z chat_row) : gmap Z chat_row :=
  filter (λ kr, ¬ (c_timestamp kr.2 < now - five_minutes)) ac.

(** *** Declared genders: the [user_genders] table *)

Definition select_gender (user_id : Z) : M (option string) := λ w,
  (Return (user_genders w !! user_id), w).

Definition upsert_gender (user_id : Z) (gender : string) : M unit :=
  update (with_user_genders (insert user_id gender)).

Definition delete_gender (user_id : Z) : M unit :=
  update (with_user_genders (delete user_id)).

(** *** The matchmaker *)

(** The pairing branch of [try_pair_gender], the same statements in the
    male and in the female arm. *)
Definition start_chat (e : env) (user_id : Z) (gender partner_gender : string)
    (partner : Z) : M unit :=
  create_pair e user_id partner ;;
  let user_nick := generate_pseudonym gender (draw1 e) in
  let partner_nick := generate_pseudonym partner_gender (draw2 e) in
  emit (send_message user_id (ChatStarted partner_nick) (Some action_keyboard)) ;;
  emit (send_message partner (ChatStarted user_nick) (Some action_keyboard)).

(** The tail of [try_pair_gender]: no partner was found. *)
Definition wait_in_queue (e : env) (user_id : Z) (gender : string) : M unit :=
  let nick := generate_pseudonym gender (draw1 e) in
  add_to_queue e user_id gender nick ;;
  if decide (gender = "male"%string)
  then emit (send_message user_id (SearchingFemale nick) (Some action_keyboard))
  else emit (send_message user_id (SearchingMale nick) (Some action_keyboard)).

Definition try_pair_gender (e : env) (user_id : Z) (gender : string) : M unit :=
  try_except
    (row ← select_partner user_id;
     match row with
     | Some _ => mret tt
     | None =>
         if decide (gender = "male"%string) then
           partner_data ← get_queue "female";
           match partner_data with
           | Some (partner, _, _) => start_chat e user_id gender "female" partner
           | None => wait_in_queue e user_id gender
           end
         else if decide (gender = "female"%string) then
           partner_data ← get_queue "male";
           match partner_data with
           | Some (partner, _, _) => start_chat e user_id gender "male" partner
           | None => wait_in_queue e user_id gender
           end
         else wait_in_queue e user_id gender
     end)
    (λ _, emit (logging_error "try_pair_gender") ;;
          emit (send_message user_id PairError None)).

Definition start (m : message) : M unit :=
  try_except
    (let user_id := from_user m in
     row ← select_partner user_id;
     match row with
     | Some _ => emit (reply_to m AlreadyInChat (Some action_keyboard))
     | None =>
         delete_gender user_id ;;
         emit (reply_to m Welcome (Some gender_keyboard))
     end)
    (λ _, emit (logging_error "start") ;; emit (reply_to m StartError None)).

(** [handle_gender]: [gender] is [call.data.split('_')[1]]. *)
Definition handle_gender (e : env) (user_id : Z) (gender : string) : M unit :=
  try_except
    (upsert_gender user_id gender ;;
     emit (answer_callback_query user_id) ;;
     emit (edit_message_text user_id GenderChosen) ;;
     try_pair_gender e user_id gender)
    (λ _, emit (logging_error "handle_gender") ;;
          emit (answer_callback_query user_id)).

Definition next_match (e : env) (user_id : Z) : M unit :=
  try_except
    (partner_row ← select_partner user_id;
     if truthy_int partner_row then
       let partner := default 0 partner_row in
       emit (send_message partner PartnerNext None) ;;
       delete_chats user_id partner ;;
       remove_from_queue partner ;;
       gender_row ← select_gender user_id;
       if truthy_str gender_row
       then try_pair_gender e user_id (default EmptyString gender_row)
       else mret tt
     else emit (send_message user_id NotInChat (Some action_keyboard)))
    (λ _, emit (logging_error "next_match")).

Definition stop (user_id : Z) : M unit :=
  try_except
    (partner_row ← select_partner user_id;
     (if truthy_int partner_row return M unit then
        let partner := default 0 partner_row in
        emit (send_message partner PartnerStopped None) ;;
        delete_chats user_id partner ;;
        remove_from_queue partner
      else mret tt) ;;
     delete_chat user_id ;;
     delete_gender user_id ;;
     remove_from_queue user_id)
    (λ _, emit (logging_error "stop")).

Definition cmd_stop (m : message) : M unit :=
  stop (from_user m) ;;
  emit (reply_to m Stopped None).

Inductive button := action_next | action_stop.

Definition handle_action (e : env) (user_id : Z) (action : button) : M unit :=
  try_except
    (emit (answer_callback_query user_id) ;;
     match action with
     | action_next =>
         next_match e user_id ;; emit (edit_message_text user_id NextStarted)
     | action_stop =>
         stop user_id ;; emit (edit_message_text user_id Stopped)
     end)
    (λ _, emit (logging_error "handle_action") ;;
          emit (answer_callback_query user_id)).

(** *** The relay path *)

Definition anon_label : string := "*Anon:* ".

(** [bot.forward_message(partner_id, message.chat.id, message.message_id,
    caption=caption, parse_mode=...)].  [TeleBot.forward_message] has no
    parameter [caption] and none called [parse_mode], so binding the
    arguments raises [TypeError] before anything reaches the transport. *)
Definition forward_message (chat from_chat msg : Z) (caption : option string)
  : M unit :=
  raise TypeError.

(** [is_rate_limited] lifted to the world. *)
Definition check_rate (now : Z) (user_id : Z) : M bool := λ w,
  let '(limited, rl) := is_rate_limited now user_id (rate_limits w) in
  (Return limited,
   World (queues w) (active_chats w) (user_genders w) rl (sent w)).

Definition handle_generic_message (e : env) (m : message) (ct : content_type)
  : M unit :=
  try_except
    (let user_id := from_user m in
     check_rate (now e) user_id ≫= λ limited : bool,
     if limited then emit (reply_to m TooFast None)
     else
       partner_row ← select_partner user_id;
       if negb (truthy_int partner_row)
       then emit (reply_to m NoPartner (Some action_keyboard))
       else
         let partner := default 0 partner_row in
         match ct with
         | text_msg =>
             if check_forbidden (text m)
             then emit (reply_to m ForbiddenWord None)
             else emit (send_message partner (Relayed (anon_label +:+ text m)) None)
         | _ =>
             let caption' :=
               if truthy_str (caption m)
               then (λ c, anon_label +:+ c)%string <$> caption m
               else caption m in
             forward_message partner (chat_id m) (message_id m) caption'
         end)
    (λ _, emit (logging_error "handle_generic_message") ;;
          emit (reply_to m RelayError None)).

(** *** The reaper: one round of the loop of [cleanup_inactive], after its
    [time.sleep(300)] *)

Definition cleanup_inactive (e : env) : M unit :=
  update (with_active_chats (expire (now e))).

(** *** Runs *)

Inductive action :=
| Start (m : message)
| Gender (user_id : Z) (gender : string)
| Button (user_id : Z) (b : button)
| CmdNext (m : message)
| CmdStop (m : message)
| Incoming (m : message) (ct : content_type)
| Sweep.

Definition handle (e : env) (a : action) : M unit :=
  match a with
  | Start m => start m
  | Gender user_id gender => handle_gender e user_id gender
  | Button user_id b => handle_action e user_id b
  | CmdNext m => next_match e (from_user m)
  | CmdStop m => cmd_stop m
  | Incoming m ct => handle_generic_message e m ct
  | Sweep => cleanup_inactive e
  end.

(** The world after a handler has run. *)
Definition after (c : M unit) (w : world) : world := (c w).2.

Fixpoint run (trace : list (env * action)) (w : world) : world :=
  match trace with
  | [] => w
  | (e, a) :: trace' => run trace' (after (handle e a) w)
  end.

End Bot.

(** ** Vocabulary of the statements *)

Module Props.

Import Text RateLimiter Bot.

(** The gender whose queue [try_pair_gender] draws from. *)
Definition opposite (gender : string) : string :=
  if decide (gender = "male"%string) then "female"%string else "male"%string.

(** The user [get_queue gender] would hand out, if any. *)
Definition candidate (gender : string) (w : world) : option Z :=
  fst <$> first_by_timestamp (rows_of_gender gender (queues w)).

(** [active_chats] holds the row (u, p). *)
Definition paired (ac : gmap Z chat_row) (u p : Z) : Prop :=
  ∃ r, ac !! u = Some r ∧ partner_id r = p.

(** Row (u, p) exists iff row (p, u) exists. *)
Definition symmetric (ac : gmap Z chat_row) : Prop :=
  ∀ u p, paired ac u p ↔ paired ac p u.

(** Symmetry as [create_pair] establishes it: the partner's row points back
    and carries the same timestamp, and no row belongs to the identifier 0
    (which Python's [if partner_id:] reads as no partner). *)
Definition well_paired (ac : gmap Z chat_row) : Prop :=
  ∀ u r, ac !! u = Some r →
    u ≠ 0 ∧ ac !! partner_id r = Some (ChatRow u (c_timestamp r)).

(** The users handed out by [n] successive calls of [get_queue gender], in
    order; the run ends early when a call finds no row. *)
Fixpoint claims (n : nat) (gender : string) (w : world) : list Z :=
  match n with
  | O => []
  | S n' =>
      match get_queue gender w with
      | (Return (Some (user_id, _, _)), w') => user_id :: claims n' gender w'
      | _ => []
      end
  end.

(** What one call of [get_queue] returns and does. *)
Definition get_queue_post (gender : string) (w : world)
    (res : outcome (option (Z * string * string)) * world) : Prop :=
  match res with
  | (Return (Some (uid, nick, g)), w') =>
      (∃ row, queues w !! uid = Some row ∧ q_gender row = gender
              ∧ nick = q_nick row ∧ g = gender
              ∧ ∀ uid' row', queues w !! uid' = Some row' →
                             q_gender row' = gender →
                             q_timestamp row ≤ q_timestamp row')
      ∧ w' = with_queues (delete uid) w
  | (Return None, w') =>
      (∀ uid row, queues w !! uid = Some row → q_gender row ≠ gender)
      ∧ w' = w
  | (Raised _, _) => False
  end.

(** Actions that are relays of a message, and actions that can reach the
    pairing transaction. *)
Definition is_relay (a : action) : Prop :=
  match a with Incoming _ _ => True | _ => False end.



(** Sample runs used to exhibit behaviours on concrete inputs. *)

(** The environment of a handler running at time [t], the store healthy. *)
Definition at_time (t : Z) : env := Env t (Draw 0 0) (Draw 1 1) false.

(** The same with the store refusing the pairing statements. *)
Definition at_time_failing (t : Z) : env := Env t (Draw 0 0) (Draw 1 1) true.

Definition text_from (u : Z) (msg : Z) (body : string) : message :=
  Message u u msg body None.

(** User 1 waits as a man, user 2 declares herself a woman: they chat. *)
Definition two_chatting : world :=
  run [(at_time 10, Gender 1 "male"); (at_time 20, Gender 2 "female")] initial.

(** Users 1 and 2 wait as men; 2 then sends /start, declares the other
    gender and is paired with 1 while its own queue row stays behind. *)
Definition queued_and_chatting : world :=
  run [(at_time 10, Gender 1 "male"); (at_time 20, Gender 2 "male");
       (at_time 25, Start (text_from 2 5 "/start"));
       (at_time 30, Gender 2 "female")] initial.

(** User 2 alone in the queue, as a woman. *)
Definition one_waiting : world :=
  run [(at_time 10, Gender 2 "female")] initial.

End Props.

(** ** Vocabulary for the handlers beyond the pairing step *)

Module Cover.

Import Text RateLimiter Bot Props.

(** The answers of [is_rate_limited] to successive calls of one user, made
    at the given clock readings, and the dictionary they leave. *)
Fixpoint answers (times : list Z) (user_id : Z) (rl : gmap Z (list Z))
  : list bool * gmap Z (list Z) :=
  match times with
  | [] => ([], rl)
  | t :: times' =>
      let r := is_rate_limited t user_id rl in
      let rs := answers times' user_id r.2 in
      (r.1 :: rs.1, rs.2)
  end.

(** A user with no row in any table. *)
Definition idle (w : world) (u : Z) : Prop :=
  queues w !! u = None ∧ active_chats w !! u = None
  ∧ user_genders w !! u = None.

(** The three tables are the same in both worlds. *)
Definition same_tables (w w' : world) : Prop :=
  queues w' = queues w ∧ active_chats w' = active_chats w
  ∧ user_genders w' = user_genders w.

(** The rows of user [v] are the same in both worlds. *)
Definition same_rows (v : Z) (w w' : world) : Prop :=
  queues w' !! v = queues w !! v
  ∧ active_chats w' !! v = active_chats w !! v
  ∧ user_genders w' !! v = user_genders w !! v.

(** What was sent by a handler run from [w] to [w']. *)
Definition sent_by (w w' : world) (out : list effect) : Prop :=
  sent w' = sent w ++ out.

End Cover.

Import Text RateLimiter Bot Props.

(** ** Text screening *)

Section text_facts.

Lemma starts_with_spec word text :
  starts_with word text = true ↔ ∃ post, text = (word +:+ post)%string.
Proof.
  revert text. induction word as [|a word IH]; intros text; simpl.
  - split; [intros _; by exists text | done].
  - destruct text as [|b text].
    + split; [done | intros [post Hp]; discriminate].
    + case_decide as Hab.
      * subst b. rewrite IH. split.
        -- intros [post ->]. by exists post.
        -- intros [post Hp]. injection Hp as ->. by exists post.
      * split; [done | intros [post Hp]; injection Hp as ??; done].
Qed.

Lemma contains_spec word text :
  contains word text = true ↔ substring word text.
Proof.
  unfold substring.
  induction text as [|b text IH]; simpl.
  - rewrite orb_false_r, starts_with_spec. split.
    + intros [post Hp]. by exists EmptyString, post.
    + intros [pre [post Hp]]. destruct pre; simpl in Hp.
      * by exists post.
      * discriminate.
  - rewrite orb_true_iff, IH, starts_with_spec. split.
    + intros [[post Hp] | [pre [post Hp]]].
      * by exists EmptyString, post.
      * exists (String b pre), post. simpl. by rewrite Hp.
    + intros [pre [post Hp]]. destruct pre as [|c pre]; simpl in Hp.
      * left. by exists post.
      * right. injection Hp as _ ->. by exists pre, post.
Qed.

Lemma check_forbidden_spec text :
  check_forbidden text = true ↔
  ∃ word, word ∈ FORBIDDEN_WORDS ∧ substring word (lower text).
Proof.
  unfold check_forbidden. rewrite existsb_exists. split.
  - intros [word [Hin Hc]]. exists word. split.
    + by apply list_elem_of_In.
    + by apply contains_spec.
  - intros [word [Hin Hc]]. exists word. split.
    + by apply list_elem_of_In.
    + by apply contains_spec.
Qed.

End text_facts.

(** ** Rate limiter *)

Section rate_limiter_facts.

Implicit Types (now user_id t : Z) (rl : gmap Z (list Z)) (ts : list Z).

Lemma recent_elem now ts t :
  t ∈ recent now ts ↔ t ∈ ts ∧ now - t < second.
Proof. unfold recent. rewrite list_elem_of_filter. tauto. Qed.

Lemma recent_nonempty now ts :
  (1 <=? length (recent now ts))%nat = true ↔
  ∃ t, t ∈ ts ∧ now - t < second.
Proof.
  rewrite Nat.leb_le. split.
  - destruct (recent now ts) as [|t l] eqn:E; simpl; [lia | intros _].
    exists t. apply recent_elem. rewrite E. apply list_elem_of_here.
  - intros [t Ht]. apply recent_elem in Ht.
    destruct (recent now ts); simpl; [by apply not_elem_of_nil in Ht | lia].
Qed.

Lemma is_rate_limited_true now user_id rl :
  (is_rate_limited now user_id rl).1 = true ↔
  ∃ t, t ∈ stamps rl user_id ∧ now - t < second.
Proof.
  rewrite <- recent_nonempty. unfold is_rate_limited.
  destruct (1 <=? length (recent now (stamps rl user_id)))%nat; simpl;
    split; congruence.
Qed.

Lemma is_rate_limited_false now user_id rl :
  (is_rate_limited now user_id rl).1 = false →
  (is_rate_limited now user_id rl).2 = <[user_id := [now]]> rl.
Proof.
  unfold is_rate_limited.
  destruct (recent now (stamps rl user_id)) as [|t l] eqn:E; simpl; [|done].
  by intros _.
Qed.

Lemma stamps_insert user_id ts rl :
  stamps (<[user_id := ts]> rl) user_id = ts.
Proof. unfold stamps. by rewrite lookup_insert_eq. Qed.

(** C9.  [allow] answers false exactly when the user has a recorded time
    stamp less than one second before [now]; then [now] is not recorded
    and the stamps are only pruned.  Otherwise it answers true and the
    user's record becomes [[now]].  A second call less than a second
    later (200 ms, for one) is then refused. *)
Theorem allow_spec now user_id rl (d : Z) (Hd : 0 ≤ d < second) :
  ((allow now user_id rl).1 = false ↔
     ∃ t, t ∈ stamps rl user_id ∧ now - t < second)
  ∧ ((allow now user_id rl).1 = false →
       (allow now user_id rl).2 =
         <[user_id := recent now (stamps rl user_id)]> rl)
  ∧ ((allow now user_id rl).1 = true →
       (allow now user_id rl).2 = <[user_id := [now]]> rl
       ∧ (allow (now + d) user_id (allow now user_id rl).2).1 = false).
Proof.
  assert (Hfst : ∀ n r, (allow n user_id r).1 = negb (is_rate_limited n user_id r).1).
  { intros n r. unfold allow. by destruct (is_rate_limited n user_id r). }
  assert (Hsnd : ∀ n r, (allow n user_id r).2 = (is_rate_limited n user_id r).2).
  { intros n r. unfold allow. by destruct (is_rate_limited n user_id r). }
  rewrite !Hfst, !Hsnd, !negb_false_iff, !negb_true_iff.
  split; [apply is_rate_limited_true|]. split.
  - unfold is_rate_limited.
    by destruct (1 <=? length (recent now (stamps rl user_id)))%nat.
  - intros Hok. rewrite (is_rate_limited_false _ _ _ Hok). split; [done|].
    apply is_rate_limited_true.
    exists now. rewrite stamps_insert. split; [apply list_elem_of_here | lia].
Qed.

Lemma allow_spec_witness :
  (allow 5000000 7 ∅).1 = true
  ∧ (allow (5000000 + 200000) 7 (allow 5000000 7 ∅).2).1 = false.
Proof.
  assert (Hd : 0 ≤ 200000 < second) by (unfold second; lia).
  destruct (allow_spec 5000000 7 ∅ 200000 Hd) as (_ & _ & H).
  assert (Hok : (allow 5000000 7 ∅).1 = true) by reflexivity.
  split; [exact Hok | exact (proj2 (H Hok))].
Defined.

End rate_limiter_facts.

(** ** Waiting pool *)

Section waiting_pool_facts.

Implicit Types (q : gmap Z queue_row) (rows : list (Z * queue_row))
  (w : world) (gender : string).

Lemma first_by_timestamp_None rows :
  first_by_timestamp rows = None ↔ rows = [].
Proof.
  destruct rows as [|r rows]; simpl; [done|].
  destruct (first_by_timestamp rows) as [r'|]; [|done].
  by destruct (q_timestamp r.2 <=? q_timestamp r'.2).
Qed.

Lemma first_by_timestamp_Some rows r :
  first_by_timestamp rows = Some r →
  r ∈ rows ∧ ∀ r', r' ∈ rows → q_timestamp r.2 ≤ q_timestamp r'.2.
Proof.
  revert r. induction rows as [|x rows IH]; intros r; simpl; [done|].
  destruct (first_by_timestamp rows) as [m|] eqn:E.
  - destruct (IH m eq_refl) as [Hin Hmin].
    destruct (Z.leb_spec (q_timestamp x.2) (q_timestamp m.2)) as [Hle|Hlt];
      intros [= <-]; split.
    + apply list_elem_of_here.
    + intros r' [->|Hr']%elem_of_cons; [lia|]. specialize (Hmin r' Hr'). lia.
    + by apply list_elem_of_further.
    + intros r' [->|Hr']%elem_of_cons; [lia | by apply Hmin].
  - apply first_by_timestamp_None in E as ->. intros [= <-]. split.
    + apply list_elem_of_here.
    + intros r' [->|Hr']%elem_of_cons; [lia | by apply not_elem_of_nil in Hr'].
Qed.

Lemma rows_of_gender_elem gender q uid row :
  (uid, row) ∈ rows_of_gender gender q ↔
  q !! uid = Some row ∧ q_gender row = gender.
Proof.
  unfold rows_of_gender. rewrite list_elem_of_filter, elem_of_map_to_list.
  simpl. tauto.
Qed.

Lemma get_queue_correct gender w : get_queue_post gender w (get_queue gender w).
Proof.
  unfold get_queue.
  destruct (first_by_timestamp (rows_of_gender gender (queues w)))
    as [[uid row]|] eqn:E; simpl.
  - apply first_by_timestamp_Some in E as [Hin Hmin].
    apply rows_of_gender_elem in Hin as [Hrow Hg].
    split; [|done]. exists row. repeat split; try done.
    intros uid' row' Hrow' Hg'.
    apply (Hmin (uid', row')). by apply rows_of_gender_elem.
  - apply first_by_timestamp_None in E. split; [|done].
    intros uid row Hrow Hg.
    assert (Hin : (uid, row) ∈ rows_of_gender gender (queues w))
      by by apply rows_of_gender_elem.
    rewrite E in Hin. by apply not_elem_of_nil in Hin.
Qed.

Lemma claims_fifo gender n : ∀ w u1 u2 r1 r2 (i : nat),
  queues w !! u1 = Some r1 → queues w !! u2 = Some r2 →
  q_gender r1 = gender → q_gender r2 = gender →
  q_timestamp r1 < q_timestamp r2 →
  claims n gender w !! i = Some u2 →
  ∃ j : nat, (j < i)%nat ∧ claims n gender w !! j = Some u1.
Proof.
  induction n as [|n IH]; intros w u1 u2 r1 r2 i H1 H2 G1 G2 Hlt Hi;
    simpl in *; [done|].
  pose proof (get_queue_correct gender w) as Hpost.
  destruct (get_queue gender w) as [[[[[c nick] g]|]|e] w']; simpl in *;
    try done.
  destruct Hpost as [(row & Hrow & Hg & _ & _ & Hmin) ->].
  assert (Hc2 : c ≠ u2).
  { intros ->. rewrite Hrow in H2. injection H2 as ->.
    specialize (Hmin u1 r1 H1 G1). lia. }
  destruct i as [|i]; simpl in Hi; [by injection Hi|].
  destruct (decide (c = u1)) as [->|Hc1].
  - exists 0%nat. split; [lia | done].
  - destruct (IH (with_queues (delete c) w) u1 u2 r1 r2 i) as (j & Hj & Hj');
      simpl; try done.
    + by rewrite lookup_delete_ne.
    + by rewrite lookup_delete_ne.
    + exists (S j). split; [lia | done].
Qed.

(** C4.  [get_queue gender] hands out a row of that gender whose timestamp
    is least among the rows of that gender and deletes exactly that row;
    it returns [None] and changes nothing when there is no such row, and
    only then.  Hence of two users waiting under one gender, the one
    queued earlier is handed out before the other in any run of claims. *)
Theorem get_queue_oldest_first gender w :
  get_queue_post gender w (get_queue gender w)
  ∧ ((∃ uid row, queues w !! uid = Some row ∧ q_gender row = gender) →
     ∃ x, (get_queue gender w).1 = Return (Some x))
  ∧ (∀ u1 u2 r1 r2 (n i : nat),
       queues w !! u1 = Some r1 → queues w !! u2 = Some r2 →
       q_gender r1 = gender → q_gender r2 = gender →
       q_timestamp r1 < q_timestamp r2 →
       claims n gender w !! i = Some u2 →
       ∃ j : nat, (j < i)%nat ∧ claims n gender w !! j = Some u1).
Proof.
  split; [apply get_queue_correct|]. split.
  - intros (uid & row & Hrow & Hg).
    pose proof (get_queue_correct gender w) as Hpost.
    destruct (get_queue gender w) as [[[x|]|e] w']; simpl in *.
    + by exists x.
    + destruct Hpost as [Hnone _]. by destruct (Hnone uid row Hrow).
    + done.
  - intros u1 u2 r1 r2 n i. apply claims_fifo.
Qed.

Lemma get_queue_oldest_first_witness :
  let w := with_queues (λ _, <[1 := QueueRow "male" "AnonGuy100" 10]>
                              (<[2 := QueueRow "male" "MisterX200" 20]> ∅))
                       initial in
  (∃ x, (get_queue "male" w).1 = Return (Some x))
  ∧ ∃ j : nat, (j < 1)%nat ∧ claims 2 "male" w !! j = Some 1.
Proof.
  intros w.
  destruct (get_queue_oldest_first "male" w) as (_ & Hsome & Hfifo).
  split.
  - apply Hsome. exists 1, (QueueRow "male" "AnonGuy100" 10).
    split; reflexivity.
  - apply (Hfifo 1 2 (QueueRow "male" "AnonGuy100" 10)
                     (QueueRow "male" "MisterX200" 20) 2%nat 1%nat);
      reflexivity.
Defined.

End waiting_pool_facts.

(** ** The matchmaker: how each handler computes *)

Ltac unfold_m :=
unfold after, try_except, mbind, M_bind, mret, M_ret, emit, update,
  select_partner, select_gender, upsert_gender, delete_gender,
  delete_chats, delete_chat, remove_from_queue, add_to_queue,
  with_queues, with_active_chats, with_user_genders in *.

Section matchmaker_facts.

Implicit Types (w : world) (e : env) (gender : string).

Lemma candidate_get_queue gender w :
  get_queue gender w =
    match first_by_timestamp (rows_of_gender gender (queues w)) with
    | Some (c, row) =>
        (Return (Some (c, q_nick row, q_gender row)), with_queues (delete c) w)
    | None => (Return None, w)
    end.
Proof. reflexivity. Qed.

Lemma candidate_Some gender w c :
  candidate gender w = Some c →
  ∃ row, first_by_timestamp (rows_of_gender gender (queues w)) = Some (c, row).
Proof.
  unfold candidate.
  destruct (first_by_timestamp _) as [[c' row]|]; simpl; [|done].
  intros [= ->]. by exists row.
Qed.

Lemma candidate_None gender w :
  candidate gender w = None →
  first_by_timestamp (rows_of_gender gender (queues w)) = None.
Proof.
  unfold candidate. by destruct (first_by_timestamp _) as [[c' row]|].
Qed.

(** The pairing transaction, computed. *)
Lemma create_pair_ok e u p w :
  pairing_fails e = false → u ≠ p →
  create_pair e u p w =
    (Return tt,
     with_active_chats
       (λ ac, touch (now e) u p
                (upsert_chat (now e) p u p (upsert_chat (now e) u p p ac))) w).
Proof.
  intros Hf Hne. unfold create_pair, insert_pair. rewrite Hf.
  by rewrite decide_False.
Qed.

Lemma create_pair_raises e u p w :
  pairing_fails e = true ∨ u = p →
  ∃ x, create_pair e u p w = (Raised x, w).
Proof.
  intros H. unfold create_pair, insert_pair.
  destruct (pairing_fails e); [by eexists|].
  destruct H as [H|H]; [done|]. rewrite decide_True by done. by eexists.
Qed.

(** With a declared gender of the two the store knows and no session row,
    [try_pair_gender] is the claim on the opposite queue followed by
    either arm. *)
Lemma try_pair_gender_idle e u gender w :
  active_chats w !! u = None →
  gender = "male"%string ∨ gender = "female"%string →
  try_pair_gender e u gender w =
    try_except
      (partner_data ← get_queue (opposite gender);
       match partner_data with
       | Some (partner, _, _) =>
           start_chat e u gender (opposite gender) partner
       | None => wait_in_queue e u gender
       end)
      (λ _, emit (logging_error "try_pair_gender") ;;
            emit (send_message u PairError None)) w.
Proof.
  intros Hrow Hg. unfold try_pair_gender, try_except, opposite.
  unfold mbind at 1, M_bind at 1, select_partner. rewrite Hrow. simpl.
  destruct Hg as [Hg|Hg]; subst gender; reflexivity.
Qed.

Lemma try_pair_gender_in_session e u gender w r :
  active_chats w !! u = Some r → try_pair_gender e u gender w = (Return tt, w).
Proof.
  intros Hrow. unfold try_pair_gender, try_except.
  unfold mbind, M_bind, select_partner. by rewrite Hrow.
Qed.

Lemma try_pair_gender_paired e u gender w c :
  active_chats w !! u = None →
  gender = "male"%string ∨ gender = "female"%string →
  candidate (opposite gender) w = Some c →
  pairing_fails e = false → c ≠ u →
  after (try_pair_gender e u gender) w =
    World (delete c (queues w))
          (touch (now e) u c
             (upsert_chat (now e) c u c
                (upsert_chat (now e) u c c (active_chats w))))
          (user_genders w) (rate_limits w)
          (sent w ++
             [send_message u
                (ChatStarted (generate_pseudonym (opposite gender) (draw2 e)))
                (Some action_keyboard)] ++
             [send_message c
                (ChatStarted (generate_pseudonym gender (draw1 e)))
                (Some action_keyboard)]).
Proof.
  intros Hrow Hg Hc Hf Hne. unfold after.
  rewrite try_pair_gender_idle by done.
  apply candidate_Some in Hc as [row Hc].
  unfold try_except, mbind, M_bind. rewrite candidate_get_queue, Hc.
  unfold start_chat, mbind, M_bind.
  rewrite create_pair_ok by done. simpl. by rewrite <- app_assoc.
Qed.

Lemma try_pair_gender_failed e u gender w c :
  active_chats w !! u = None →
  gender = "male"%string ∨ gender = "female"%string →
  candidate (opposite gender) w = Some c →
  pairing_fails e = true ∨ u = c →
  after (try_pair_gender e u gender) w =
    World (delete c (queues w)) (active_chats w) (user_genders w)
          (rate_limits w)
          (sent w ++ [logging_error "try_pair_gender"]
                  ++ [send_message u PairError None]).
Proof.
  intros Hrow Hg Hc Hf. unfold after.
  rewrite try_pair_gender_idle by done.
  apply candidate_Some in Hc as [row Hc].
  unfold try_except, mbind, M_bind. rewrite candidate_get_queue, Hc.
  unfold start_chat, mbind, M_bind.
  destruct (create_pair_raises e u c (with_queues (delete c) w) Hf) as [x ->].
  simpl. by rewrite <- app_assoc.
Qed.

Lemma try_pair_gender_queued e u gender w :
  active_chats w !! u = None →
  gender = "male"%string ∨ gender = "female"%string →
  candidate (opposite gender) w = None →
  after (try_pair_gender e u gender) w =
    World (<[u := QueueRow gender (generate_pseudonym gender (draw1 e)) (now e)]>
             (queues w))
          (active_chats w) (user_genders w) (rate_limits w)
          (sent w ++
             [send_message u
                ((if decide (gender = "male"%string)
                  then SearchingFemale else SearchingMale)
                   (generate_pseudonym gender (draw1 e)))
                (Some action_keyboard)]).
Proof.
  intros Hrow Hg Hc. unfold after.
  rewrite try_pair_gender_idle by done.
  apply candidate_None in Hc.
  unfold try_except, mbind, M_bind. rewrite candidate_get_queue, Hc.
  unfold wait_in_queue. unfold_m. by case_decide.
Qed.

End matchmaker_facts.

(** ** Stop *)

Section stop_facts.

Implicit Types (w : world) (u : Z).

(** [stop], computed: with a partner the code can see, both session rows
    and both queue rows go and the partner is told; without one, only the
    caller's own rows go. *)
Lemma stop_computes u w :
  stop u w =
    (Return tt,
     let partner_row := partner_id <$> active_chats w !! u in
     let p := default 0 partner_row in
     if truthy_int partner_row
     then World (delete u (delete p (queues w)))
                (delete u (delete p (delete u (active_chats w))))
                (delete u (user_genders w)) (rate_limits w)
                (sent w ++ [send_message p PartnerStopped None])
     else World (delete u (queues w)) (delete u (active_chats w))
                (delete u (user_genders w)) (rate_limits w) (sent w)).
Proof.
  unfold stop. unfold_m. simpl.
  by destruct (truthy_int (partner_id <$> active_chats w !! u)).
Qed.

Lemma stop_clears u w :
  let w' := after (stop u) w in
  queues w' !! u = None ∧ active_chats w' !! u = None
  ∧ user_genders w' !! u = None.
Proof.
  unfold after. rewrite stop_computes. simpl.
  destruct (truthy_int _); simpl; by rewrite !lookup_delete_eq.
Qed.

(** C5.  Running [stop] a second time changes nothing: the queue, the
    sessions, the declared genders and the record of what was sent are
    those left by the first run, so no partner is told anything again;
    the second run returns normally and logs no error. *)
Theorem stop_idempotent (u : Z) (w : world) :
  after (stop u) (after (stop u) w) = after (stop u) w
  ∧ (stop u (after (stop u) w)).1 = Return tt
  ∧ sent (after (stop u) (after (stop u) w)) = sent (after (stop u) w).
Proof.
  destruct (stop_clears u w) as (Hq & Hac & Hug).
  set (w1 := after (stop u) w) in *.
  assert (H : after (stop u) w1 = w1).
  { unfold after at 1. rewrite stop_computes. simpl. rewrite Hac. simpl.
    rewrite !delete_id by done. by destruct w1. }
  split; [done|]. split; [by rewrite stop_computes | by rewrite H].
Qed.

End stop_facts.

(** ** The relay path *)

Section relay_facts.

Implicit Types (w : world) (e : env) (m : message) (ct : content_type).

(** [handle_generic_message], computed branch by branch.  The exception
    of the forward call is caught by the handler's own [except], which
    logs it and answers the sender. *)
Lemma handle_generic_message_computes e m ct w :
  handle_generic_message e m ct w =
    (Return tt,
     let lim := is_rate_limited (now e) (from_user m) (rate_limits w) in
     let partner_row := partner_id <$> active_chats w !! from_user m in
     let out xs :=
       World (queues w) (active_chats w) (user_genders w) lim.2 (sent w ++ xs) in
     if lim.1 then out [reply_to m TooFast None]
     else if negb (truthy_int partner_row)
     then out [reply_to m NoPartner (Some action_keyboard)]
     else
       match ct with
       | text_msg =>
           if check_forbidden (text m)
           then out [reply_to m ForbiddenWord None]
           else out [send_message (default 0 partner_row)
                       (Relayed (anon_label +:+ text m)) None]
       | _ =>
           out [logging_error "handle_generic_message";
                reply_to m RelayError None]
       end).
Proof.
  unfold handle_generic_message, check_rate, forward_message, raise. unfold_m.
  destruct (is_rate_limited (now e) (from_user m) (rate_limits w))
    as [[] rl]; simpl; [done|].
  destruct (truthy_int (partner_id <$> active_chats w !! from_user m));
    simpl; [|done].
  destruct ct; simpl; rewrite <- ?app_assoc; try done.
  by destruct (check_forbidden (text m)).
Qed.

(** C8.  Whatever the branch (refused by the rate limiter, not paired,
    rejected for a forbidden word, text relayed, or a media message whose
    forward call raises and is caught), [handle_generic_message] leaves
    the queue table, the session table and the declared genders as they
    were.  It returns normally; it only updates the caller's rate-limit
    record and adds to what was sent. *)
Theorem relay_reads_only e m ct w :
  let w' := after (handle_generic_message e m ct) w in
  queues w' = queues w
  ∧ active_chats w' = active_chats w
  ∧ user_genders w' = user_genders w
  ∧ rate_limits w' = (is_rate_limited (now e) (from_user m) (rate_limits w)).2
  ∧ (handle_generic_message e m ct w).1 = Return tt
  ∧ ∃ out, sent w' = sent w ++ out.
Proof.
  unfold after. rewrite handle_generic_message_computes. simpl.
  destruct (is_rate_limited _ _ _).1; simpl; [eauto 10|].
  destruct (negb _); simpl; [eauto 10|].
  destruct ct; simpl; eauto 10.
  destruct (check_forbidden _); simpl; eauto 10.
Qed.

End relay_facts.

(** ** Declared genders *)

Section gender_facts.

Implicit Types (w : world) (e : env) (u : Z) (gender : string).

Lemma try_pair_gender_keeps_genders e u gender w :
  user_genders (after (try_pair_gender e u gender) w) = user_genders w.
Proof.
  unfold try_pair_gender, start_chat, wait_in_queue, create_pair, get_queue.
  unfold_m. repeat (case_match; simpl in *; simplify_eq; try done).
Qed.

Lemma handle_gender_genders e u gender w :
  user_genders (after (handle_gender e u gender) w)
  = <[u := gender]> (user_genders w).
Proof.
  pose proof (try_pair_gender_keeps_genders e u gender) as H.
  unfold after, handle_gender in *. unfold try_except at 1.
  unfold mbind at 1 2 3, M_bind at 1 2 3. unfold_m. simpl.
  match goal with
  | |- context [try_pair_gender e u gender ?w0] =>
      specialize (H w0); destruct (try_pair_gender e u gender w0) as [[[]|x] w1]
  end; simpl in *; by rewrite H.
Qed.

(** C6, what fails: after a pairing both users still have their declared
    gender on record. *)
Lemma gender_survives_pairing :
  paired (active_chats two_chatting) 1 2
  ∧ paired (active_chats two_chatting) 2 1
  ∧ user_genders two_chatting !! 1 = Some "male"%string
  ∧ user_genders two_chatting !! 2 = Some "female"%string.
Proof.
  repeat split; try reflexivity.
  - by exists (ChatRow 2 20).
  - by exists (ChatRow 1 20).
Qed.

(** C6, amended.  The pairing step never writes the declared genders: the
    table is the same after [try_pair_gender] as before, on every path, so
    a declaration made through [handle_gender] is still on record once the
    session has started.  [stop] deletes the caller's declaration and no
    one else's. *)
Theorem declared_gender_lifetime e u gender w :
  user_genders (after (try_pair_gender e u gender) w) = user_genders w
  ∧ user_genders (after (handle_gender e u gender) w) !! u = Some gender
  ∧ user_genders (after (stop u) w) = delete u (user_genders w).
Proof.
  split; [apply try_pair_gender_keeps_genders|]. split.
  - by rewrite handle_gender_genders, lookup_insert_eq.
  - unfold after. rewrite stop_computes. simpl. by destruct (truthy_int _).
Qed.

End gender_facts.

(** ** Relaying text *)

Section relay_text_facts.

Implicit Types (w : world) (e : env) (m : message).

(** C7, what fails: a paired user sends a text free of forbidden words
    200 ms after a first one; it is not forwarded, the sender is told to
    slow down. *)
Lemma clean_text_not_forwarded_when_rate_limited :
  let w := run [(at_time 5000000, Incoming (text_from 1 7 "hi") text_msg)]
               two_chatting in
  let m := text_from 1 8 "hello" in
  let w' := after (handle_generic_message (at_time 5200000) m text_msg) w in
  paired (active_chats w) 1 2
  ∧ check_forbidden (text m) = false
  ∧ sent w' = sent w ++ [reply_to m TooFast None].
Proof.
  repeat split; try reflexivity. by exists (ChatRow 2 20).
Qed.

(** C7, amended.  Take a user with partner [B] and a text.  When the rate
    limiter refuses the call, the only thing sent is the slow-down notice
    to the sender, whatever the text.  When it admits the call, the text is
    answered with the forbidden-word notice, and nothing else is sent,
    exactly when its lower-cased form has a forbidden word as a substring;
    otherwise exactly one message goes out, to [B], and it is the text
    behind the anonymous label. *)
Theorem relay_text_policy e m w (r : chat_row) (B : Z) :
  active_chats w !! from_user m = Some r → partner_id r = B → B ≠ 0 →
  let w' := after (handle_generic_message e m text_msg) w in
  let limited := (is_rate_limited (now e) (from_user m) (rate_limits w)).1 in
  let forbidden :=
    ∃ word, word ∈ FORBIDDEN_WORDS ∧ substring word (lower (text m)) in
  (limited = true → sent w' = sent w ++ [reply_to m TooFast None])
  ∧ (limited = false →
     (forbidden ↔ sent w' = sent w ++ [reply_to m ForbiddenWord None])
     ∧ (¬ forbidden ↔
        sent w' = sent w ++
          [send_message B (Relayed (anon_label +:+ text m)) None])).
Proof.
  intros Hrow HB Hnz. simpl.
  rewrite <- check_forbidden_spec.
  unfold after. rewrite handle_generic_message_computes. simpl.
  split; intros Hlim; rewrite Hlim; [done|].
  rewrite Hrow. simpl. rewrite HB.
  assert (Ht : (B =? 0) = false) by by apply Z.eqb_neq.
  rewrite Ht. simpl.
  destruct (check_forbidden (text m)); simpl; split; split; try done.
  - intros H. by simplify_list_eq.
  - intros H. by simplify_list_eq.
Qed.

Lemma relay_text_policy_witness :
  let m := text_from 1 7 "this is spam content" in
  let w1 := after (handle_generic_message (at_time 5000000) m text_msg)
                  two_chatting in
  let m' := text_from 1 8 "more SPAM" in
  let w2 := after (handle_generic_message (at_time 5200000) m' text_msg) w1 in
  (∃ word, word ∈ FORBIDDEN_WORDS ∧ substring word (lower (text m)))
  ∧ sent w1 = sent two_chatting ++ [reply_to m ForbiddenWord None]
  ∧ sent w2 = sent w1 ++ [reply_to m' TooFast None].
Proof.
  intros m w1 m' w2.
  assert (Hw : ∃ word, word ∈ FORBIDDEN_WORDS ∧ substring word (lower (text m))).
  { exists "spam"%string. split; [apply list_elem_of_here|].
    by exists "this is "%string, " content"%string. }
  split; [exact Hw|]. split.
  - refine (proj1 (proj1 (proj2 (relay_text_policy (at_time 5000000) m
                                   two_chatting (ChatRow 2 20) 2 _ _ _) _)) Hw);
      [reflexivity | reflexivity | lia | reflexivity].
  - refine (proj1 (relay_text_policy (at_time 5200000) m' w1
                     (ChatRow 2 20) 2 _ _ _) _);
      [reflexivity | reflexivity | lia | reflexivity].
Defined.

End relay_text_facts.

(** ** Session store *)

Section session_store_facts.

Implicit Types (ac : gmap Z chat_row) (w : world) (e : env) (r : chat_row).

Lemma well_paired_symmetric ac : well_paired ac → symmetric ac.
Proof.
  intros Hwp.
  assert (H : ∀ u p, paired ac u p → paired ac p u).
  { intros u p (r & Hr & <-). destruct (Hwp u r Hr) as [_ Hback]. by eexists. }
  intros u p. split; apply H.
Qed.

(** The rows [create_pair] leaves when neither user had one. *)
Lemma fresh_pair_rows now a b ac :
  ac !! a = None → ac !! b = None → a ≠ b →
  touch now a b (upsert_chat now b a b (upsert_chat now a b b ac))
  = <[b := ChatRow a now]> (<[a := ChatRow b now]> ac).
Proof.
  intros Ha Hb Hne. unfold touch, upsert_chat. rewrite Ha.
  rewrite lookup_insert_ne, Hb by done.
  apply map_eq. intros i.
  destruct (decide (i = b)) as [->|Hib].
  - by rewrite lookup_alter_eq, lookup_alter_ne, !lookup_insert_eq.
  - rewrite lookup_alter_ne, (lookup_insert_ne _ b) by done.
    destruct (decide (i = a)) as [->|Hia].
    + by rewrite lookup_alter_eq, lookup_insert_ne, !lookup_insert_eq.
    + by rewrite lookup_alter_ne, !lookup_insert_ne.
Qed.

Lemma well_paired_fresh_pair now a b ac :
  well_paired ac → a ≠ 0 → b ≠ 0 → a ≠ b →
  ac !! a = None → ac !! b = None →
  well_paired (<[b := ChatRow a now]> (<[a := ChatRow b now]> ac)).
Proof.
  intros Hwp Ha0 Hb0 Hne Ha Hb u r Hu.
  apply lookup_insert_Some in Hu as [[<- <-]|[Hub Hu]]; simpl.
  { split; [done|]. by rewrite lookup_insert_ne, lookup_insert_eq. }
  apply lookup_insert_Some in Hu as [[<- <-]|[Hua Hu]]; simpl.
  { split; [done|]. by rewrite lookup_insert_eq. }
  destruct (Hwp u r Hu) as [Hu0 Hback]. split; [done|].
  rewrite !lookup_insert_ne; [done | congruence | congruence].
Qed.

Lemma well_paired_create_pair e a b w :
  well_paired (active_chats w) → a ≠ 0 → b ≠ 0 →
  active_chats w !! a = None → active_chats w !! b = None →
  well_paired (active_chats (after (create_pair e a b) w)).
Proof.
  intros Hwp Ha0 Hb0 Ha Hb. unfold after, create_pair, insert_pair.
  destruct (pairing_fails e); [done|].
  case_decide as Hab; [done|]. simpl.
  rewrite fresh_pair_rows by done. by apply well_paired_fresh_pair.
Qed.

Lemma well_paired_delete_pair u r ac :
  well_paired ac → ac !! u = Some r →
  well_paired (delete u (delete (partner_id r) (delete u ac))).
Proof.
  intros Hwp Hu v rv Hv.
  apply lookup_delete_Some in Hv as [Hvu Hv].
  apply lookup_delete_Some in Hv as [Hvp Hv].
  apply lookup_delete_Some in Hv as [_ Hv].
  destruct (Hwp v rv Hv) as [Hv0 Hback].
  destruct (Hwp u r Hu) as [_ Hbacku].
  split; [done|].
  rewrite !lookup_delete_ne; [done | | | ]; intros Heq.
  - rewrite <- Heq, Hu in Hback. injection Hback as ->. by simpl in Hvp.
  - rewrite <- Heq, Hbacku in Hback. by injection Hback as Hp _.
  - rewrite <- Heq, Hu in Hback. injection Hback as ->. by simpl in Hvp.
Qed.

Lemma well_paired_stop u w :
  well_paired (active_chats w) →
  well_paired (active_chats (after (stop u) w)).
Proof.
  intros Hwp. unfold after. rewrite stop_computes. simpl.
  destruct (active_chats w !! u) as [r|] eqn:Hu; simpl.
  - destruct (Hwp u r Hu) as [_ Hback].
    destruct (Hwp _ _ Hback) as [Hp0 _].
    apply Z.eqb_neq in Hp0. rewrite Hp0. simpl.
    by apply well_paired_delete_pair.
  - by rewrite delete_id.
Qed.

Lemma well_paired_expire now ac :
  well_paired ac → well_paired (expire now ac).
Proof.
  intros Hwp u r Hu. unfold expire in *.
  apply map_lookup_filter_Some in Hu as [Hu Hts]. simpl in Hts.
  destruct (Hwp u r Hu) as [Hu0 Hback]. split; [done|].
  by apply map_lookup_filter_Some.
Qed.

Lemma two_chatting_well_paired : well_paired (active_chats two_chatting).
Proof.
  intros u r Hu.
  change (active_chats two_chatting)
    with (<[2 := ChatRow 1 20]> (<[1 := ChatRow 2 20]> (∅ : gmap Z chat_row)))
    in *.
  apply lookup_insert_Some in Hu as [[<- <-]|[? Hu]]; [done|].
  apply lookup_insert_Some in Hu as [[<- <-]|[? Hu]]; [done|].
  by rewrite lookup_empty in Hu.
Qed.

(** C1, what fails: [create_pair] on a user who already has a session.
    From the symmetric store holding the pair (1, 2), pairing 2 with a
    newcomer 3 in either role leaves user 1 pointing at 2 while 2 no
    longer points at 1. *)
Lemma create_pair_over_session_breaks_symmetry :
  let w := two_chatting in
  symmetric (active_chats w)
  ∧ ¬ symmetric (active_chats (after (create_pair (at_time 30) 2 3) w))
  ∧ ¬ symmetric (active_chats (after (create_pair (at_time 30) 3 2) w)).
Proof.
  split; [|split].
  - apply well_paired_symmetric, two_chatting_well_paired.
  - intros Hsym. destruct (Hsym 1 2) as [H _].
    destruct H as (r & Hr & Hp); [by exists (ChatRow 2 20)|].
    vm_compute in Hr. injection Hr as <-. discriminate Hp.
  - intros Hsym. destruct (Hsym 1 2) as [H _].
    destruct H as (r & Hr & Hp); [by exists (ChatRow 2 20)|].
    vm_compute in Hr. injection Hr as <-. discriminate Hp.
Qed.

(** C1, amended.  Call a store well paired when every row's partner has a
    row that points back with the same timestamp (and no row belongs to
    identifier 0).  A well-paired store is symmetric, and it stays well
    paired, hence symmetric, through [stop], through a reaper sweep, and
    through [create_pair a b] when neither [a] nor [b] has a session row
    before the call; a [create_pair] that commits leaves the two rows
    (a, b) and (b, a). *)
Theorem symmetry_preserved e a b u w :
  well_paired (active_chats w) → a ≠ 0 → b ≠ 0 →
  active_chats w !! a = None → active_chats w !! b = None →
  symmetric (active_chats w)
  ∧ (well_paired (active_chats (after (create_pair e a b) w))
     ∧ symmetric (active_chats (after (create_pair e a b) w))
     ∧ (pairing_fails e = false → a ≠ b →
        paired (active_chats (after (create_pair e a b) w)) a b
        ∧ paired (active_chats (after (create_pair e a b) w)) b a))
  ∧ (well_paired (active_chats (after (stop u) w))
     ∧ symmetric (active_chats (after (stop u) w)))
  ∧ (well_paired (active_chats (after (cleanup_inactive e) w))
     ∧ symmetric (active_chats (after (cleanup_inactive e) w))).
Proof.
  intros Hwp Ha0 Hb0 Ha Hb.
  assert (H1 := well_paired_create_pair e a b w Hwp Ha0 Hb0 Ha Hb).
  assert (H2 := well_paired_stop u w Hwp).
  assert (H3 : well_paired (active_chats (after (cleanup_inactive e) w)))
    by by apply well_paired_expire.
  assert (H4 : pairing_fails e = false → a ≠ b →
               paired (active_chats (after (create_pair e a b) w)) a b
               ∧ paired (active_chats (after (create_pair e a b) w)) b a).
  { intros Hf Hne. unfold after. rewrite create_pair_ok by done. simpl.
    rewrite fresh_pair_rows by done. split.
    - exists (ChatRow b (now e)).
      by rewrite lookup_insert_ne, lookup_insert_eq.
    - exists (ChatRow a (now e)). by rewrite lookup_insert_eq. }
  auto 10 using well_paired_symmetric.
Qed.

Lemma symmetry_preserved_witness :
  paired (active_chats (after (create_pair (at_time 30) 3 4) two_chatting)) 4 3
  ∧ symmetric (active_chats (after (create_pair (at_time 30) 3 4) two_chatting))
  ∧ symmetric (active_chats (after (stop 1) two_chatting))
  ∧ symmetric (active_chats (after (cleanup_inactive (at_time 400000000))
                                   two_chatting)).
Proof.
  destruct (symmetry_preserved (at_time 30) 3 4 1 two_chatting
              two_chatting_well_paired) as (_ & (_ & H1 & H1') & [_ H2] & [_ H3]);
    [lia | lia | reflexivity | reflexivity |].
  split; [apply H1'; [reflexivity | lia] | done].
Defined.

End session_store_facts.

(** ** The pairing step *)

Section pairing_facts.

Implicit Types (w : world) (e : env) (u c : Z) (gender : string).

Lemma candidate_waiting gender w c :
  candidate gender w = Some c →
  ∃ row, queues w !! c = Some row ∧ q_gender row = gender.
Proof.
  intros [row Hc]%candidate_Some.
  apply first_by_timestamp_Some in Hc as [Hin _].
  apply rows_of_gender_elem in Hin. by exists row.
Qed.

Lemma create_pair_raised e u c w x :
  (create_pair e u c w).1 = Raised x → pairing_fails e = true ∨ u = c.
Proof.
  unfold create_pair, insert_pair.
  destruct (pairing_fails e); [by left|].
  case_decide; [by right | done].
Qed.

(** C2, what fails: user 2 waits as a woman; user 1 declares himself a
    man while the store refuses the pairing statements.  The transaction
    raises, no session appears, and user 2 is gone from the queue. *)
Lemma failed_pairing_loses_candidate :
  let w := one_waiting in
  let e := at_time_failing 20 in
  let w' := after (try_pair_gender e 1 "male") w in
  candidate "female" w = Some 2
  ∧ (create_pair e 1 2 (with_queues (delete 2) w)).1 = Raised StorageError
  ∧ active_chats w' = active_chats w
  ∧ is_Some (queues w !! 2)
  ∧ queues w' !! 2 = None
  ∧ queues w' ≠ queues w.
Proof.
  repeat split; try reflexivity.
  - by eexists.
  - intros H. apply (f_equal (λ q, q !! 2)) in H. vm_compute in H. discriminate.
Qed.

(** C2, amended.  When the pairing transaction raises, the session table
    and the declared genders are as before the attempt and the caller is
    told of the error; the queue is not restored: the candidate, whose
    row [get_queue] had already deleted and committed, is missing from
    it, and nothing else in it has changed. *)
Theorem failed_pairing_state e u gender w c x :
  active_chats w !! u = None →
  gender = "male"%string ∨ gender = "female"%string →
  candidate (opposite gender) w = Some c →
  (create_pair e u c (with_queues (delete c) w)).1 = Raised x →
  let w' := after (try_pair_gender e u gender) w in
  active_chats w' = active_chats w
  ∧ user_genders w' = user_genders w
  ∧ is_Some (queues w !! c)
  ∧ queues w' = delete c (queues w)
  ∧ queues w' !! c = None
  ∧ sent w' = sent w ++ [logging_error "try_pair_gender"]
                     ++ [send_message u PairError None].
Proof.
  intros Hrow Hg Hc Hraise. simpl.
  apply create_pair_raised in Hraise.
  rewrite (try_pair_gender_failed e u gender w c) by done. simpl.
  destruct (candidate_waiting _ _ _ Hc) as (row & Hq & _).
  repeat split; try done. by rewrite lookup_delete_eq.
Qed.

Lemma failed_pairing_state_witness :
  let w' := after (try_pair_gender (at_time_failing 20) 1 "male") one_waiting in
  active_chats w' = active_chats one_waiting
  ∧ queues w' = delete 2 (queues one_waiting).
Proof.
  destruct (failed_pairing_state (at_time_failing 20) 1 "male" one_waiting 2
              StorageError) as (H1 & _ & _ & H2 & _);
    [reflexivity | by left | reflexivity | reflexivity |].
  by split.
Defined.

(** The three cases of the pairing step, when the store is healthy and
    the user handed out by the queue is another user without a session
    row. *)
Lemma try_pair_gender_spec e u gender w :
  gender = "male"%string ∨ gender = "female"%string →
  pairing_fails e = false →
  let w' := after (try_pair_gender e u gender) w in
  match active_chats w !! u, candidate (opposite gender) w with
  | Some _, _ => w' = w
  | None, Some c =>
      active_chats w !! c = None → c ≠ u →
      queues w' = delete c (queues w)
      ∧ active_chats w' =
          <[c := ChatRow u (now e)]> (<[u := ChatRow c (now e)]> (active_chats w))
  | None, None =>
      queues w' =
        <[u := QueueRow gender (generate_pseudonym gender (draw1 e)) (now e)]>
          (queues w)
      ∧ active_chats w' = active_chats w
  end.
Proof.
  intros Hg Hf. simpl.
  destruct (active_chats w !! u) as [r|] eqn:Hu.
  { unfold after. by rewrite (try_pair_gender_in_session e u gender w r). }
  destruct (candidate (opposite gender) w) as [c|] eqn:Hc.
  - intros Hcrow Hne.
    rewrite (try_pair_gender_paired e u gender w c) by done. simpl.
    split; [done|]. by apply fresh_pair_rows.
  - by rewrite (try_pair_gender_queued e u gender w).
Qed.

(** C3, where the code departs from it.  Users 1 and 2 wait as men, then
    2 sends /start, declares the other gender and is paired with 1; the
    queue row of 2 stays.  When user 3 now declares herself a woman, the queue hands out
    user 2, who has a session row: the insert takes its conflict arm and
    writes 2 as the partner of 2.  User 3 points at 2, but 2 does not
    point back, and user 1 still points at 2. *)
Theorem request_match_candidate_in_session :
  let w := queued_and_chatting in
  let w' := after (try_pair_gender (at_time 40) 3 "female") w in
  active_chats w !! 3 = None
  ∧ candidate (opposite "female") w = Some 2
  ∧ active_chats w !! 2 = Some (ChatRow 1 30)
  ∧ queues w' !! 2 = None
  ∧ active_chats w' !! 3 = Some (ChatRow 2 40)
  ∧ active_chats w' !! 2 = Some (ChatRow 2 40)
  ∧ active_chats w' !! 1 = Some (ChatRow 2 30)
  ∧ ¬ paired (active_chats w') 2 3
  ∧ ¬ symmetric (active_chats w').
Proof.
  assert (H23 : ¬ paired (active_chats
                   (after (try_pair_gender (at_time 40) 3 "female")
                          queued_and_chatting)) 2 3).
  { intros (r & Hr & Hp). vm_compute in Hr. injection Hr as <-. discriminate Hp. }
  repeat split; try reflexivity; try done.
  intros Hsym. apply H23, Hsym. by exists (ChatRow 2 40).
Qed.

(** The other way the pairing step goes wrong: the oldest row of the
    opposite queue is the caller's own (user 1 waits as a man, then
    declares the other gender).  The insert names one key twice, the store
    refuses it, and the caller is left with neither a session nor a queue
    row. *)
Lemma request_match_claims_self :
  let w := run [(at_time 10, Gender 1 "male")] initial in
  let w' := after (try_pair_gender (at_time 20) 1 "female") w in
  candidate (opposite "female") w = Some 1
  ∧ queues w' = ∅ ∧ active_chats w' = ∅
  ∧ sent w' = sent w ++ [logging_error "try_pair_gender";
                         send_message 1 PairError None].
Proof. repeat split; reflexivity. Qed.

End pairing_facts.

(** ** Session timestamps and the reaper *)

Section reaper_facts.

Implicit Types (ac : gmap Z chat_row) (w : world) (e : env) (u : Z).




Lemma upsert_chat_ne now uid partner on_conflict ac i :
  i ≠ uid → upsert_chat now uid partner on_conflict ac !! i = ac !! i.
Proof.
  intros Hne. unfold upsert_chat.
  destruct (ac !! uid); by rewrite lookup_insert_ne.
Qed.


Lemma try_pair_gender_returns e u gender w :
  try_pair_gender e u gender w = (Return tt, after (try_pair_gender e u gender) w).
Proof.
  unfold after, try_pair_gender, start_chat, wait_in_queue, create_pair, get_queue.
  unfold_m. repeat (case_match; simpl in *; simplify_eq; try done).
Qed.


Lemma handle_gender_computes e u gender w :
  handle_gender e u gender w =
    (Return tt,
     after (try_pair_gender e u gender)
       (World (queues w) (active_chats w) (<[u := gender]> (user_genders w))
              (rate_limits w)
              ((sent w ++ [answer_callback_query u])
                 ++ [edit_message_text u GenderChosen]))).
Proof.
  unfold handle_gender. unfold try_except at 1.
  unfold mbind at 1 2 3, M_bind at 1 2 3. unfold_m. simpl.
  by rewrite try_pair_gender_returns.
Qed.

Lemma next_match_computes e u w :
  next_match e u w =
    (Return tt,
     let partner_row := partner_id <$> active_chats w !! u in
     let p := default 0 partner_row in
     if truthy_int partner_row then
       let w1 := World (delete p (queues w))
                       (delete p (delete u (active_chats w)))
                       (user_genders w) (rate_limits w)
                       (sent w ++ [send_message p PartnerNext None]) in
       if truthy_str (user_genders w !! u)
       then after (try_pair_gender e u (default EmptyString (user_genders w !! u))) w1
       else w1
     else World (queues w) (active_chats w) (user_genders w) (rate_limits w)
                (sent w ++ [send_message u NotInChat (Some action_keyboard)])).
Proof.
  unfold next_match. unfold try_except at 1.
  unfold mbind at 1, M_bind at 1. unfold select_partner at 1.
  destruct (truthy_int (partner_id <$> active_chats w !! u)); [|done].
  unfold mbind at 1 2 3 4, M_bind at 1 2 3 4. unfold_m. simpl.
  destruct (truthy_str (user_genders w !! u)); [|done].
  by rewrite try_pair_gender_returns.
Qed.


Lemma stop_only_removes u w :
  active_chats (after (stop u) w) ⊆ active_chats w.
Proof.
  unfold after. rewrite stop_computes. simpl.
  destruct (truthy_int _); simpl; repeat (etrans; [apply delete_subseteq|]);
    done.
Qed.










(** What the statement above leaves open: a pairing transaction can write
    the row of a user who is already chatting.  User 2 chats with 1 since
    time 30 and still has a queue row; the request of user 3 at time 40
    claims 2 and stamps the row of 2 anew, so a sweep later than 30 plus
    five minutes, but not later than 40 plus five minutes, keeps it. *)
Lemma pairing_restamps_chatting_user :
  let w := after (try_pair_gender (at_time 40) 3 "female") queued_and_chatting in
  active_chats queued_and_chatting !! 2 = Some (ChatRow 1 30)
  ∧ active_chats w !! 2 = Some (ChatRow 2 40)
  ∧ active_chats (after (cleanup_inactive (at_time (30 + five_minutes + 1))) w)
      !! 2 = Some (ChatRow 2 40).
Proof. repeat split; reflexivity. Qed.

End reaper_facts.

(** * The rest of the handlers *)

Import Cover.

(** ** Rate limiter over several calls *)

Section rate_limiter_runs.

Implicit Types (now user_id t : Z) (rl : gmap Z (list Z)).

Lemma is_rate_limited_refused now user_id rl t0 :
  stamps rl user_id = [t0] → now - t0 < second →
  is_rate_limited now user_id rl = (true, rl).
Proof.
  intros Hst Hin. unfold is_rate_limited, recent. rewrite Hst.
  rewrite filter_cons_True by done. simpl. f_equal.
  apply insert_id. unfold stamps in Hst.
  destruct (rl !! user_id) as [l|]; simpl in *; by subst.
Qed.

Lemma answers_refused times user_id rl t0 :
  stamps rl user_id = [t0] → Forall (λ t, t - t0 < second) times →
  answers times user_id rl = (replicate (length times) true, rl).
Proof.
  intros Hst. induction 1 as [|t times Ht _ IH]; [done|]. simpl.
  rewrite (is_rate_limited_refused t user_id rl t0) by done. simpl.
  by rewrite IH.
Qed.

(** X1.  Once a call of a user is let through at time [t0], every further
    call of that user less than a second after [t0] is refused, however
    many there are, and none of them is recorded: the dictionary stays as
    the accepted call left it, so the first call a full second or more
    after [t0] is let through again.  Refused calls do not push the window
    forward. *)
Theorem refused_calls_do_not_extend_window now user_id rl
    (burst : list Z) (t1 : Z) :
  (is_rate_limited now user_id rl).1 = false →
  Forall (λ t, t - now < second) burst →
  second ≤ t1 - now →
  let rl0 := (is_rate_limited now user_id rl).2 in
  answers burst user_id rl0 = (replicate (length burst) true, rl0)
  ∧ is_rate_limited t1 user_id (answers burst user_id rl0).2
    = (false, <[user_id := [t1]]> rl0).
Proof.
  intros Hok Hburst Hlate. simpl.
  rewrite (is_rate_limited_false _ _ _ Hok).
  assert (Hst : stamps (<[user_id := [now]]> rl) user_id = [now])
    by apply stamps_insert.
  rewrite (answers_refused burst user_id _ now) by done. split; [done|].
  simpl. unfold is_rate_limited, recent. rewrite Hst.
  rewrite filter_cons_False by lia. simpl. done.
Qed.

Lemma refused_calls_do_not_extend_window_witness :
  answers [5000001; 5400000; 5999999] 7 (is_rate_limited 5000000 7 ∅).2
  = ([true; true; true], (is_rate_limited 5000000 7 ∅).2)
  ∧ (is_rate_limited 6000000 7
       (answers [5000001; 5400000; 5999999] 7 (is_rate_limited 5000000 7 ∅).2).2).1
    = false.
Proof.
  destruct (refused_calls_do_not_extend_window 5000000 7 ∅
              [5000001; 5400000; 5999999] 6000000) as [H1 H2].
  - reflexivity.
  - repeat constructor.
  - unfold second. lia.
  - split; [exact H1 | by rewrite H2].
Defined.

End rate_limiter_runs.

(** ** The rate-limit dictionary along a run *)

Section rate_limit_invariant.

Implicit Types (w : world) (e : env) (u v : Z) (rl : gmap Z (list Z)).

Lemma stamps_after_call now u rl v :
  stamps (is_rate_limited now u rl).2 v
  = if decide (v = u)
    then (if (1 <=? length (recent now (stamps rl u)))%nat
          then recent now (stamps rl u) else [now])
    else stamps rl v.
Proof.
  unfold is_rate_limited.
  destruct (recent now (stamps rl u)) as [|t l] eqn:E; simpl;
    unfold stamps at 1; case_decide as Hv; subst;
    by rewrite ?lookup_insert_eq, ?lookup_insert_ne.
Qed.

Lemma recent_length now (ts : list Z) : (length (recent now ts) ≤ length ts)%nat.
Proof. apply length_filter. Qed.

Lemma try_pair_gender_keeps_rate_limits e u gender w :
  rate_limits (after (try_pair_gender e u gender) w) = rate_limits w.
Proof.
  unfold try_pair_gender, start_chat, wait_in_queue, create_pair, get_queue.
  unfold_m. repeat (case_match; simpl in *; simplify_eq; try done).
Qed.

Lemma next_match_keeps_rate_limits e u w :
  rate_limits (after (next_match e u) w) = rate_limits w.
Proof.
  unfold after. rewrite next_match_computes. simpl.
  destruct (truthy_int _); [|done]. destruct (truthy_str _); [|done].
  apply (try_pair_gender_keeps_rate_limits e u _ (World _ _ _ _ _)).
Qed.

Lemma stop_keeps_rate_limits u w :
  rate_limits (after (stop u) w) = rate_limits w.
Proof.
  unfold after. rewrite stop_computes. simpl. by destruct (truthy_int _).
Qed.

Lemma handle_keeps_rate_limits e a w :
  ¬ is_relay a → rate_limits (after (handle e a) w) = rate_limits w.
Proof.
  intros Hnr. destruct a as [m|u g|u []|m|m|m ct|]; simpl in *; try done.
  - unfold start. unfold_m. simpl. by destruct (active_chats w !! from_user m).
  - unfold after. rewrite handle_gender_computes. simpl.
    apply (try_pair_gender_keeps_rate_limits e u g (World _ _ _ _ _)).
  - pose proof (next_match_keeps_rate_limits e u
                  (World (queues w) (active_chats w) (user_genders w)
                     (rate_limits w) (sent w ++ [answer_callback_query u]))) as H.
    unfold after, handle_action in *. unfold try_except at 1.
    unfold mbind at 1 2, M_bind at 1 2. unfold emit at 1. simpl.
    rewrite next_match_computes in *. by unfold_m.
  - unfold after, handle_action. unfold try_except at 1.
    unfold mbind at 1 2, M_bind at 1 2. unfold emit at 1. simpl.
    rewrite stop_computes. simpl. unfold_m. simpl.
    match goal with
    | |- context [if ?b then _ else _] => by destruct b
    end.
  - apply next_match_keeps_rate_limits.
  - unfold after, cmd_stop. unfold mbind, M_bind. rewrite stop_computes.
    unfold_m. simpl.
    match goal with
    | |- context [if ?b then _ else _] => by destruct b
    end.
Qed.

Lemma handle_stamps_bound e a w v :
  (length (stamps (rate_limits (after (handle e a) w)) v)
   ≤ Nat.max 1 (length (stamps (rate_limits w) v)))%nat.
Proof.
  destruct a as [m|u g|u b|m|m|m ct|];
    try (rewrite handle_keeps_rate_limits by (simpl; tauto); lia).
  simpl. unfold after. rewrite handle_generic_message_computes. simpl.
  match goal with
  | |- context [stamps (rate_limits ?W) v] =>
      assert (HW : rate_limits W
                   = (is_rate_limited (now e) (from_user m) (rate_limits w)).2)
  end.
  { repeat (case_match; simpl; try done). }
  rewrite HW, stamps_after_call.
  case_decide as Hv; [subst v|lia].
  pose proof (recent_length (now e) (stamps (rate_limits w) (from_user m))).
  destruct (1 <=? _)%nat; simpl; lia.
Qed.

(** X2.  Along any run from the empty world, whatever the handlers and
    the clock readings, the rate-limit dictionary holds at most one time
    stamp per user. *)
Theorem rate_record_at_most_one_stamp (trace : list (env * action)) (v : Z) :
  (length (stamps (rate_limits (run trace initial)) v) ≤ 1)%nat.
Proof.
  assert (H : ∀ w, (∀ x, (length (stamps (rate_limits w) x) ≤ 1)%nat) →
                   (length (stamps (rate_limits (run trace w)) v) ≤ 1)%nat).
  { induction trace as [|[e a] trace IH]; intros w Hw; simpl; [done|].
    apply IH. intros x. pose proof (handle_stamps_bound e a w x).
    specialize (Hw x). lia. }
  apply H. intros x. unfold stamps. simpl. rewrite lookup_empty. simpl. lia.
Qed.

End rate_limit_invariant.

(** ** Where a forbidden word may sit *)

Section text_occurrences.

Lemma lower_app (a b : string) : lower (a +:+ b) = (lower a +:+ lower b)%string.
Proof. induction a as [|c a IH]; simpl; [done | by rewrite IH]. Qed.

Lemma lower_split (text a b : string) :
  lower text = (a +:+ b)%string →
  ∃ a0 b0, text = (a0 +:+ b0)%string ∧ lower a0 = a ∧ lower b0 = b.
Proof.
  revert text. induction a as [|c a IH]; intros text; simpl.
  - intros H. by exists EmptyString, text.
  - destruct text as [|c0 text]; simpl; [done|].
    intros [= Hc Ht]. destruct (IH text Ht) as (a0 & b0 & -> & Ha & Hb).
    exists (String c0 a0), b0. simpl. by rewrite Hc, Ha.
Qed.

(** X3.  A text is rejected exactly when some stretch of it, at any
    position and also inside a longer word, spells a forbidden word up to
    the case of its letters. *)
Theorem check_forbidden_occurrence (text : string) :
  check_forbidden text = true ↔
  ∃ pre mid post,
    text = (pre +:+ mid +:+ post)%string ∧ lower mid ∈ FORBIDDEN_WORDS.
Proof.
  rewrite check_forbidden_spec. unfold substring. split.
  - intros (word & Hin & pre & post & Heq).
    apply lower_split in Heq as (pre0 & rest & -> & Hpre & Hrest).
    apply lower_split in Hrest as (mid & post0 & -> & Hmid & Hpost).
    exists pre0, mid, post0. by rewrite Hmid.
  - intros (pre & mid & post & -> & Hin).
    exists (lower mid). split; [done|].
    exists (lower pre), (lower post). by rewrite !lower_app.
Qed.

End text_occurrences.

(** ** The waiting pool under several operations *)

Section waiting_pool_runs.

Implicit Types (q : gmap Z queue_row) (w : world) (e : env)
  (gender nick : string) (u c : Z).

Lemma rows_of_gender_delete gender q c row :
  q !! c = Some row → q_gender row = gender →
  length (rows_of_gender gender q)
  = S (length (rows_of_gender gender (delete c q))).
Proof.
  intros Hc Hg. unfold rows_of_gender.
  rewrite <- (map_to_list_delete q c row Hc).
  by rewrite filter_cons_True by done.
Qed.

Lemma get_queue_none_rows gender w :
  (get_queue gender w).1 = Return None → rows_of_gender gender (queues w) = [].
Proof.
  unfold get_queue.
  destruct (first_by_timestamp _) as [[c row]|] eqn:E; simpl; [done|].
  intros _. by apply first_by_timestamp_None.
Qed.

Lemma claims_waiting n gender : ∀ w u,
  u ∈ claims n gender w →
  ∃ row, queues w !! u = Some row ∧ q_gender row = gender.
Proof.
  induction n as [|n IH]; intros w u; simpl; [by intros ?%not_elem_of_nil|].
  pose proof (get_queue_correct gender w) as Hpost.
  destruct (get_queue gender w) as [[[[[c nick] g]|]|x] w']; simpl in *;
    try by intros ?%not_elem_of_nil.
  destruct Hpost as [(row & Hrow & Hg & _) ->].
  intros [->|Hin]%elem_of_cons; [by exists row|].
  destruct (IH _ _ Hin) as (row' & Hrow' & Hg'). simpl in Hrow'.
  apply lookup_delete_Some in Hrow' as [_ Hrow']. by exists row'.
Qed.

(** X4.  Claim after claim, [get_queue] hands out each waiting user of the
    gender at most once and only users who were waiting under it; [n]
    calls succeed as many times as there are such users, or [n] times if
    there are more. *)
Theorem claims_exactly_once (n : nat) gender w :
  NoDup (claims n gender w)
  ∧ length (claims n gender w)
    = Nat.min n (length (rows_of_gender gender (queues w)))
  ∧ ∀ u, u ∈ claims n gender w →
         ∃ row, queues w !! u = Some row ∧ q_gender row = gender.
Proof.
  split; [|split]; [| |intros u; apply claims_waiting].
  - revert w. induction n as [|n IH]; intros w; simpl; [constructor|].
    pose proof (get_queue_correct gender w) as Hpost.
    destruct (get_queue gender w) as [[[[[c nick] g]|]|x] w']; simpl in *;
      try constructor; [|apply IH].
    destruct Hpost as [_ ->]. intros Hin.
    destruct (claims_waiting _ _ _ _ Hin) as (row & Hrow & _). simpl in Hrow.
    by rewrite lookup_delete_eq in Hrow.
  - revert w. induction n as [|n IH]; intros w; simpl; [done|].
    pose proof (get_queue_correct gender w) as Hpost.
    pose proof (get_queue_none_rows gender w) as Hnone.
    destruct (get_queue gender w) as [[[[[c nick] g]|]|x] w']; simpl in *.
    + destruct Hpost as [(row & Hrow & Hg & _) ->].
      rewrite (rows_of_gender_delete gender (queues w) c row) by done.
      simpl. by rewrite IH.
    + by rewrite Hnone.
    + done.
Qed.

(** X5.  Queue, then claim: when no one else waits under the gender, a
    user put in the queue is the one [get_queue] hands out next, with the
    nickname and gender just stored, and the claim takes the row out
    again. *)
Theorem add_to_queue_then_get_queue e u gender nick w :
  (∀ v row, queues w !! v = Some row → q_gender row = gender → v = u) →
  get_queue gender (after (add_to_queue e u gender nick) w)
  = (Return (Some (u, nick, gender)),
     with_queues (λ _, delete u (queues w)) w).
Proof.
  intros Halone.
  pose proof (get_queue_correct gender (after (add_to_queue e u gender nick) w))
    as Hpost.
  destruct (get_queue gender _) as [[[[[c nick'] g]|]|x] w']; simpl in *.
  - destruct Hpost as [(row & Hrow & Hg & -> & -> & _) ->].
    unfold after, add_to_queue in *. unfold_m. simpl in *.
    apply lookup_insert_Some in Hrow as [[<- <-]|[Hne Hrow]].
    + simpl. by rewrite delete_insert_eq.
    + by destruct Hne; symmetry; eapply Halone.
  - destruct Hpost as [Hnone _].
    destruct (Hnone u (QueueRow gender nick (now e))); [|done].
    unfold after, add_to_queue. unfold_m. simpl. apply lookup_insert_eq.
  - done.
Qed.

Lemma add_to_queue_then_get_queue_witness :
  get_queue "male" (after (add_to_queue (at_time 30) 5 "male" "AnonGuy123")
                          one_waiting)
  = (Return (Some (5, "AnonGuy123"%string, "male"%string)),
     with_queues (λ _, delete 5 (queues one_waiting)) one_waiting).
Proof.
  apply (add_to_queue_then_get_queue (at_time 30) 5 "male" "AnonGuy123" one_waiting).
  intros v row Hv Hg.
  change (queues one_waiting)
    with (<[2 := QueueRow "female" "AnonGal100" 10]> (∅ : gmap Z queue_row)) in Hv.
  apply lookup_insert_Some in Hv as [[<- <-]|[_ Hv]]; [discriminate Hg|].
  by rewrite lookup_empty in Hv.
Defined.

End waiting_pool_runs.

(** ** Leaving and re-entering the queue *)

Section queue_positions.

Implicit Types (q : gmap Z queue_row) (w : world) (e : env)
  (gender nick : string) (u c : Z).

Lemma candidate_oldest gender w c :
  candidate gender w = Some c →
  ∃ row, queues w !! c = Some row ∧ q_gender row = gender
         ∧ ∀ v row', queues w !! v = Some row' → q_gender row' = gender →
                     q_timestamp row ≤ q_timestamp row'.
Proof.
  intros [row Hc]%candidate_Some.
  apply first_by_timestamp_Some in Hc as [Hin Hmin].
  apply rows_of_gender_elem in Hin as [Hrow Hg].
  exists row. repeat split; try done.
  intros v row' Hv Hg'. apply (Hmin (v, row')). by apply rows_of_gender_elem.
Qed.

(** X6.  A user who is waiting and declares the same gender again, while
    nobody of the other gender waits, is stamped anew: as long as someone
    who joined the queue before that moment waits under the same gender,
    the user is not the one handed out next, whatever place it had. *)
Theorem redeclaring_goes_behind e u gender w (v : Z) (rv : queue_row) :
  active_chats w !! u = None →
  gender = "male"%string ∨ gender = "female"%string →
  candidate (opposite gender) w = None →
  queues w !! v = Some rv → q_gender rv = gender → v ≠ u →
  q_timestamp rv < now e →
  let w' := after (try_pair_gender e u gender) w in
  (∃ row, queues w' !! u = Some row ∧ q_timestamp row = now e)
  ∧ candidate gender w' ≠ Some u.
Proof.
  intros Hrow Hg Hnone Hv Hgv Hne Hlt. simpl.
  rewrite (try_pair_gender_queued e u gender w) by done.
  split.
  - eexists. simpl. by rewrite lookup_insert_eq.
  - intros (row & Hu & _ & Hmin)%candidate_oldest. simpl in *.
    rewrite lookup_insert_eq in Hu. injection Hu as <-.
    specialize (Hmin v rv). rewrite lookup_insert_ne in Hmin by done.
    specialize (Hmin Hv Hgv). simpl in Hmin. lia.
Qed.

Lemma redeclaring_goes_behind_witness :
  let w := run [(at_time 10, Gender 1 "male"); (at_time 20, Gender 2 "male")]
               initial in
  candidate "male" w = Some 1
  ∧ candidate "male" (after (try_pair_gender (at_time 30) 1 "male") w) ≠ Some 1.
Proof.
  intros w. split; [reflexivity|].
  refine (proj2 (redeclaring_goes_behind (at_time 30) 1 "male" w 2
                   (QueueRow "male" "AnonGuy100" 20) _ _ _ _ _ _ _));
    [reflexivity | by left | reflexivity | reflexivity | reflexivity | lia
    | reflexivity].
Defined.

(** X7.  After [remove_from_queue] the user cannot be handed out under
    any gender; removing a user who is not waiting changes nothing, so
    removing twice is the same as once; and no other row of the queue is
    touched. *)
Theorem remove_from_queue_withdraws u w :
  let w' := after (remove_from_queue u) w in
  (∀ gender, candidate gender w' ≠ Some u)
  ∧ (queues w !! u = None → w' = w)
  ∧ after (remove_from_queue u) w' = w'
  ∧ (∀ v, v ≠ u → queues w' !! v = queues w !! v)
  ∧ active_chats w' = active_chats w ∧ user_genders w' = user_genders w
  ∧ sent w' = sent w.
Proof.
  unfold after, remove_from_queue. unfold_m. simpl.
  repeat split; try done.
  - intros gender (row & Hrow & _)%candidate_oldest. simpl in Hrow.
    by rewrite lookup_delete_eq in Hrow.
  - intros Hnone. rewrite delete_id by done. by destruct w.
  - by rewrite delete_delete_eq.
  - intros v Hv. by rewrite lookup_delete_ne.
Qed.

End queue_positions.

(** ** What the pairing step can do to the tables *)

Section pairing_cases.

Implicit Types (w : world) (e : env) (gender : string) (u v c : Z).

Lemma try_pair_gender_other_gender e u gender w :
  active_chats w !! u = None →
  gender ≠ "male"%string → gender ≠ "female"%string →
  after (try_pair_gender e u gender) w =
    World (<[u := QueueRow gender (generate_pseudonym gender (draw1 e)) (now e)]>
             (queues w))
          (active_chats w) (user_genders w) (rate_limits w)
          (sent w ++
             [send_message u (SearchingMale (generate_pseudonym gender (draw1 e)))
                (Some action_keyboard)]).
Proof.
  intros Hrow Hm Hf. unfold after, try_pair_gender, try_except.
  unfold mbind at 1, M_bind at 1, select_partner. rewrite Hrow. simpl.
  rewrite !decide_False by done.
  unfold wait_in_queue. unfold_m. by rewrite decide_False by done.
Qed.

(** The four ways [try_pair_gender] can end, by what they do to the queue
    and the session table. *)
Lemma try_pair_gender_cases e u gender w :
  let w' := after (try_pair_gender e u gender) w in
  (queues w' = queues w ∧ active_chats w' = active_chats w)
  ∨ (∃ c, is_Some (queues w !! c)
          ∧ queues w' = delete c (queues w)
          ∧ (active_chats w' = active_chats w
             ∨ active_chats w'
               = touch (now e) u c
                   (upsert_chat (now e) c u c
                      (upsert_chat (now e) u c c (active_chats w)))))
  ∨ (active_chats w !! u = None
     ∧ queues w'
       = <[u := QueueRow gender (generate_pseudonym gender (draw1 e)) (now e)]>
           (queues w)
     ∧ active_chats w' = active_chats w).
Proof.
  simpl. destruct (active_chats w !! u) as [r|] eqn:Hu.
  { left. unfold after. by rewrite (try_pair_gender_in_session e u gender w r). }
  destruct (decide (gender = "male"%string ∨ gender = "female"%string))
    as [Hg|Hg].
  - destruct (candidate (opposite gender) w) as [c|] eqn:Hc.
    + right; left. exists c.
      destruct (candidate_waiting _ _ _ Hc) as (row & Hrow & _).
      split; [by eexists|].
      destruct (pairing_fails e) eqn:Hf.
      * rewrite (try_pair_gender_failed e u gender w c) by auto. auto.
      * destruct (decide (u = c)) as [Huc|Huc].
        -- rewrite (try_pair_gender_failed e u gender w c) by auto. auto.
        -- rewrite (try_pair_gender_paired e u gender w c) by auto. auto.
    + right; right. by rewrite (try_pair_gender_queued e u gender w).
  - right; right.
    rewrite (try_pair_gender_other_gender e u gender w) by tauto. done.
Qed.

(** A user other than the caller who has no queue row and no session row
    has none afterwards either. *)
Lemma try_pair_gender_leaves_absent e u gender w v :
  v ≠ u → queues w !! v = None → active_chats w !! v = None →
  queues (after (try_pair_gender e u gender) w) !! v = None
  ∧ active_chats (after (try_pair_gender e u gender) w) !! v = None.
Proof.
  intros Hvu Hq Hac.
  destruct (try_pair_gender_cases e u gender w)
    as [[-> ->]|[(c & [row Hc] & -> & Hch)|(_ & -> & ->)]].
  - done.
  - assert (Hvc : v ≠ c) by (intros ->; congruence).
    rewrite lookup_delete_ne by done. split; [done|].
    destruct Hch as [-> | ->]; [done|].
    unfold touch. by rewrite !lookup_alter_ne, !upsert_chat_ne.
  - by rewrite lookup_insert_ne.
Qed.

(** The pairing step only adds to what was sent. *)
Lemma try_pair_gender_appends e u gender w :
  ∃ out, sent (after (try_pair_gender e u gender) w) = sent w ++ out.
Proof.
  destruct (active_chats w !! u) as [r|] eqn:Hu.
  { exists []. unfold after.
    rewrite (try_pair_gender_in_session e u gender w r) by done.
    by rewrite app_nil_r. }
  destruct (decide (gender = "male"%string ∨ gender = "female"%string))
    as [Hg|Hg].
  - destruct (candidate (opposite gender) w) as [c|] eqn:Hc.
    + destruct (pairing_fails e) eqn:Hf.
      * rewrite (try_pair_gender_failed e u gender w c) by auto. by eexists.
      * destruct (decide (u = c)) as [Huc|Huc].
        -- rewrite (try_pair_gender_failed e u gender w c) by auto. by eexists.
        -- rewrite (try_pair_gender_paired e u gender w c) by auto. by eexists.
    + rewrite (try_pair_gender_queued e u gender w) by done. by eexists.
  - rewrite (try_pair_gender_other_gender e u gender w) by tauto. by eexists.
Qed.

End pairing_cases.

(** ** Start, next and stop *)

Section command_facts.

Implicit Types (w : world) (e : env) (m : message) (gender : string) (u v p : Z).

(** X8.  [/start] never touches the queue or the sessions.  From inside a
    chat it changes nothing and answers that the user is already in one;
    otherwise it forgets the caller's declared gender, and nobody else's,
    and shows the gender keyboard: a user who was waiting stays in the
    queue. *)
Theorem start_keeps_pool_and_sessions m w :
  let w' := after (start m) w in
  queues w' = queues w ∧ active_chats w' = active_chats w
  ∧ rate_limits w' = rate_limits w
  ∧ (is_Some (active_chats w !! from_user m) →
     user_genders w' = user_genders w
     ∧ sent_by w w' [reply_to m AlreadyInChat (Some action_keyboard)])
  ∧ (active_chats w !! from_user m = None →
     user_genders w' = delete (from_user m) (user_genders w)
     ∧ sent_by w w' [reply_to m Welcome (Some gender_keyboard)]).
Proof.
  unfold sent_by, start. unfold_m. simpl.
  destruct (active_chats w !! from_user m) as [r|]; simpl;
    repeat split; try done; by intros [? ?].
Qed.

(** X10.  After [next_match] the partner who was left has no session row
    and no queue row, whatever the pairing step then does for the caller:
    the partner was told of the move, but is not queued again. *)
Theorem next_match_leaves_partner_idle e u w (r : chat_row) :
  active_chats w !! u = Some r → partner_id r ≠ 0 → partner_id r ≠ u →
  let w' := after (next_match e u) w in
  queues w' !! partner_id r = None
  ∧ active_chats w' !! partner_id r = None
  ∧ user_genders w' = user_genders w
  ∧ ∃ rest, sent_by w w' (send_message (partner_id r) PartnerNext None :: rest).
Proof.
  intros Hrow Hp0 Hpu. simpl. unfold after, sent_by.
  rewrite next_match_computes. simpl. rewrite Hrow. simpl.
  apply Z.eqb_neq in Hp0 as Hp0'. rewrite Hp0'. simpl.
  set (w1 := World _ _ _ _ _).
  assert (Hq : queues w1 !! partner_id r = None) by apply lookup_delete_eq.
  assert (Hac : active_chats w1 !! partner_id r = None) by apply lookup_delete_eq.
  destruct (truthy_str _).
  - destruct (try_pair_gender_leaves_absent e u
                (default EmptyString (user_genders w !! u)) w1 (partner_id r))
      as [H1 H2]; try done.
    repeat split; try done.
    + apply (try_pair_gender_keeps_genders e u _ w1).
    + destruct (try_pair_gender_appends e u
                  (default EmptyString (user_genders w !! u)) w1) as [out ->].
      exists out. subst w1. simpl. by rewrite <- app_assoc.
  - repeat split; try done. by exists [].
Qed.

Lemma next_match_leaves_partner_idle_witness :
  let w' := after (next_match (at_time 30) 1) two_chatting in
  queues w' !! 2 = None ∧ active_chats w' !! 2 = None.
Proof.
  destruct (next_match_leaves_partner_idle (at_time 30) 1 two_chatting
              (ChatRow 2 20)) as (H1 & H2 & _);
    [reflexivity | simpl; lia | simpl; lia | by split].
Defined.

End command_facts.

(** ** Who is affected by stop, and by a declaration made in a chat *)

Section frame_facts.

Implicit Types (w : world) (e : env) (m : message) (gender : string) (u v p : Z).

(** X11.  [stop] by a user whose session row shows partner [p]: both are
    left without session row and without queue row, the caller also
    without declared gender; [p] is told once that the partner stopped and
    keeps a declared gender; every other user's rows in the three tables
    are as before. *)
Theorem stop_ends_the_pair u w (r : chat_row) :
  active_chats w !! u = Some r → partner_id r ≠ 0 →
  let p := partner_id r in
  let w' := after (stop u) w in
  idle w' u
  ∧ queues w' !! p = None ∧ active_chats w' !! p = None
  ∧ (p ≠ u → user_genders w' !! p = user_genders w !! p)
  ∧ sent_by w w' [send_message p PartnerStopped None]
  ∧ ∀ v, v ≠ u → v ≠ p → same_rows v w w'.
Proof.
  intros Hrow Hp0. simpl. unfold idle, sent_by, same_rows, after.
  rewrite stop_computes. simpl. rewrite Hrow. simpl.
  apply Z.eqb_neq in Hp0 as ->. simpl.
  rewrite !lookup_delete_eq. repeat split; try done.
  - destruct (decide (partner_id r = u)) as [->|Hne];
      [apply lookup_delete_eq | by rewrite lookup_delete_ne, lookup_delete_eq].
  - destruct (decide (partner_id r = u)) as [->|Hne];
      [apply lookup_delete_eq | by rewrite lookup_delete_ne, lookup_delete_eq].
  - intros Hne. by rewrite lookup_delete_ne.
  - by rewrite !lookup_delete_ne.
  - by rewrite !lookup_delete_ne.
  - by rewrite !lookup_delete_ne.
Qed.

Lemma stop_ends_the_pair_witness :
  let w' := after (stop 2) queued_and_chatting in
  idle w' 2 ∧ queues w' !! 1 = None ∧ active_chats w' !! 1 = None
  ∧ user_genders w' !! 1 = Some "male"%string.
Proof.
  destruct (stop_ends_the_pair 2 queued_and_chatting (ChatRow 1 30))
    as (H1 & H2 & H3 & H4 & _); [reflexivity | simpl; lia |].
  split; [exact H1|]. split; [exact H2|]. split; [exact H3|].
  refine (eq_trans (H4 _) _); [simpl; lia | reflexivity].
Defined.

(** X12.  [stop] by a user without session row sends nothing: it takes
    the user out of the queue, forgets the user's declared gender, and
    leaves every other user's rows alone. *)
Theorem stop_while_waiting u w :
  active_chats w !! u = None →
  let w' := after (stop u) w in
  idle w' u ∧ sent w' = sent w ∧ active_chats w' = active_chats w
  ∧ queues w' = delete u (queues w)
  ∧ ∀ v, v ≠ u → same_rows v w w'.
Proof.
  intros Hrow. simpl. unfold idle, same_rows, after.
  rewrite stop_computes. simpl. rewrite Hrow. simpl.
  rewrite !lookup_delete_eq, delete_id by done. repeat split; try done;
    by rewrite lookup_delete_ne.
Qed.

Lemma stop_while_waiting_witness :
  queues (after (stop 2) one_waiting) = ∅
  ∧ sent (after (stop 2) one_waiting) = sent one_waiting.
Proof.
  destruct (stop_while_waiting 2 one_waiting) as (_ & H1 & _ & H2 & _);
    [reflexivity|].
  split; [by rewrite H2 | exact H1].
Defined.

(** X13.  A gender button pressed from inside a chat records the gender,
    replacing an earlier declaration, and does nothing else: the queue and
    the sessions are as before and only the two answers to the button
    press are sent. *)
Theorem gender_button_in_chat e u gender w (r : chat_row) :
  active_chats w !! u = Some r →
  let w' := after (handle_gender e u gender) w in
  queues w' = queues w ∧ active_chats w' = active_chats w
  ∧ user_genders w' = <[u := gender]> (user_genders w)
  ∧ sent_by w w' [answer_callback_query u; edit_message_text u GenderChosen].
Proof.
  intros Hrow. simpl. unfold sent_by, after.
  rewrite handle_gender_computes. simpl. unfold after.
  rewrite (try_pair_gender_in_session e u gender _ r) by done. simpl.
  by rewrite <- app_assoc.
Qed.

Lemma gender_button_in_chat_witness :
  let w' := after (handle_gender (at_time 30) 1 "female") two_chatting in
  active_chats w' = active_chats two_chatting
  ∧ user_genders w' !! 1 = Some "female"%string.
Proof.
  destruct (gender_button_in_chat (at_time 30) 1 "female" two_chatting
              (ChatRow 2 20)) as (_ & H1 & H2 & _); [reflexivity|].
  split; [exact H1 | by rewrite H2].
Defined.

(** X14.  [next_match] by a chatting user who has no declared gender on
    record: the session of the two is removed and the partner told, and
    that is all.  The caller is not queued, not paired, and is sent
    nothing. *)
Theorem next_match_without_gender e u w (r : chat_row) :
  active_chats w !! u = Some r → partner_id r ≠ 0 →
  user_genders w !! u = None →
  let w' := after (next_match e u) w in
  active_chats w' = delete (partner_id r) (delete u (active_chats w))
  ∧ queues w' = delete (partner_id r) (queues w)
  ∧ user_genders w' = user_genders w
  ∧ sent_by w w' [send_message (partner_id r) PartnerNext None].
Proof.
  intros Hrow Hp0 Hg. simpl. unfold sent_by, after.
  rewrite next_match_computes. simpl. rewrite Hrow, Hg. simpl.
  by apply Z.eqb_neq in Hp0 as ->.
Qed.

Lemma next_match_without_gender_witness :
  let w := run [(at_time 10, Gender 2 "female");
                (at_time 15, Start (text_from 2 3 "/start"));
                (at_time 20, Gender 1 "male")] initial in
  let w' := after (next_match (at_time 30) 2) w in
  active_chats w' = ∅ ∧ queues w' = ∅
  ∧ sent_by w w' [send_message 1 PartnerNext None].
Proof.
  intros w w'.
  destruct (next_match_without_gender (at_time 30) 2 w (ChatRow 1 20))
    as (H1 & H2 & _ & H3); [reflexivity | simpl; lia | reflexivity |].
  split; [exact (eq_trans H1 eq_refl)|].
  split; [exact (eq_trans H2 eq_refl) | exact H3].
Defined.

End frame_facts.

(** ** Relaying media, and relaying both ways *)

Section relay_more_facts.

Implicit Types (w : world) (e : env) (m : message) (ct : content_type).

(** X15.  No media message is ever relayed.  For a chatting user whose
    call the rate limiter lets through, a message of any content type
    other than text makes the handler call [forward_message] with keywords
    it does not take; the call raises, the handler logs the error and
    answers the sender with the relay-error notice.  Nothing goes to the
    partner, whatever the caption, and the tables stay as they were. *)
Theorem media_is_not_forwarded e m ct w (r : chat_row) :
  ct ≠ text_msg →
  active_chats w !! from_user m = Some r → partner_id r ≠ 0 →
  (is_rate_limited (now e) (from_user m) (rate_limits w)).1 = false →
  let w' := after (handle_generic_message e m ct) w in
  sent_by w w' [logging_error "handle_generic_message";
                reply_to m RelayError None]
  ∧ same_tables w w'.
Proof.
  intros Hct Hrow Hp0 Hlim. simpl. unfold sent_by, same_tables, after.
  rewrite handle_generic_message_computes. simpl. rewrite Hlim, Hrow. simpl.
  apply Z.eqb_neq in Hp0 as ->. simpl.
  by destruct ct.
Qed.

Lemma media_is_not_forwarded_witness :
  let m := Message 1 1 9 EmptyString (Some "holiday photo"%string) in
  sent_by two_chatting
    (after (handle_generic_message (at_time 5000000) m photo) two_chatting)
    [logging_error "handle_generic_message"; reply_to m RelayError None].
Proof.
  intros m.
  apply (media_is_not_forwarded (at_time 5000000) m photo two_chatting
           (ChatRow 2 20)); [done | reflexivity | simpl; lia | reflexivity].
Defined.

(** X16.  In a well-paired store a conversation runs both ways: an
    admitted, clean text of a user goes to the partner, and an admitted,
    clean text of that partner comes back to the user. *)
Theorem relay_goes_both_ways e1 e2 m1 m2 w (r : chat_row) :
  well_paired (active_chats w) →
  active_chats w !! from_user m1 = Some r → from_user m2 = partner_id r →
  (is_rate_limited (now e1) (from_user m1) (rate_limits w)).1 = false →
  (is_rate_limited (now e2) (from_user m2) (rate_limits w)).1 = false →
  check_forbidden (text m1) = false → check_forbidden (text m2) = false →
  sent_by w (after (handle_generic_message e1 m1 text_msg) w)
    [send_message (from_user m2) (Relayed (anon_label +:+ text m1)) None]
  ∧ sent_by w (after (handle_generic_message e2 m2 text_msg) w)
      [send_message (from_user m1) (Relayed (anon_label +:+ text m2)) None].
Proof.
  intros Hwp Hrow H2 Hl1 Hl2 Hc1 Hc2. unfold sent_by, after.
  destruct (Hwp _ _ Hrow) as [H10 Hback].
  destruct (Hwp _ _ Hback) as [H20 _].
  rewrite !handle_generic_message_computes. simpl.
  rewrite Hl1, Hl2, Hc1, Hc2, H2, Hrow, Hback. simpl.
  apply Z.eqb_neq in H10 as ->. by apply Z.eqb_neq in H20 as ->.
Qed.

Lemma relay_goes_both_ways_witness :
  sent_by two_chatting
    (after (handle_generic_message (at_time 5000000) (text_from 1 7 "hi") text_msg)
           two_chatting)
    [send_message 2 (Relayed (anon_label +:+ "hi")) None]
  ∧ sent_by two_chatting
      (after (handle_generic_message (at_time 5000000) (text_from 2 8 "hey") text_msg)
             two_chatting)
      [send_message 1 (Relayed (anon_label +:+ "hey")) None].
Proof.
  apply (relay_goes_both_ways (at_time 5000000) (at_time 5000000)
           (text_from 1 7 "hi") (text_from 2 8 "hey") two_chatting (ChatRow 2 20));
    [apply two_chatting_well_paired | reflexivity..].
Defined.

End relay_more_facts.

(** ** Round trips through the tables *)

Section round_trips.

Implicit Types (w : world) (e : env) (gender : string) (u c : Z).

(** X18.  Declare, then stop: for a user without rows who declares a
    gender while nobody of the other gender waits, a following [stop]
    returns the three tables to what they were before the declaration, and
    tells no one of a stopped chat. *)
Theorem declare_then_stop_restores e u gender w :
  idle w u →
  gender = "male"%string ∨ gender = "female"%string →
  candidate (opposite gender) w = None →
  let w1 := after (handle_gender e u gender) w in
  is_Some (queues w1 !! u)
  ∧ same_tables w (after (stop u) w1)
  ∧ sent (after (stop u) w1) = sent w1.
Proof.
  intros (Hq & Hac & Hug) Hg Hnone. simpl. unfold same_tables, after.
  rewrite handle_gender_computes. simpl.
  set (w0 := World _ _ _ _ _).
  rewrite (try_pair_gender_queued e u gender w0) by done. simpl.
  split; [by rewrite lookup_insert_eq|].
  rewrite stop_computes. simpl. rewrite Hac. simpl.
  by rewrite !delete_insert_id, delete_id.
Qed.

Lemma declare_then_stop_restores_witness :
  same_tables one_waiting
    (after (stop 5) (after (handle_gender (at_time 30) 5 "female") one_waiting)).
Proof.
  destruct (declare_then_stop_restores (at_time 30) 5 "female" one_waiting)
    as (_ & H & _); [by repeat split | by right | reflexivity | exact H].
Defined.

(** X19.  Pair, then stop: when the pairing step joins a caller without
    session row to a waiting user without session row, a [stop] by either
    of the two puts the session table back as it was before the pairing;
    the queue has lost the claimed user, and the one who did not stop is
    told. *)
Theorem pair_then_stop_restores_sessions e u gender w c (x : Z) :
  active_chats w !! u = None → active_chats w !! c = None →
  gender = "male"%string ∨ gender = "female"%string →
  candidate (opposite gender) w = Some c →
  pairing_fails e = false → c ≠ u → u ≠ 0 → c ≠ 0 →
  x = u ∨ x = c →
  let w1 := after (try_pair_gender e u gender) w in
  let w2 := after (stop x) w1 in
  active_chats w2 = active_chats w
  ∧ queues w2 = delete u (delete c (queues w))
  ∧ sent_by w1 w2
      [send_message (if decide (x = u) then c else u) PartnerStopped None].
Proof.
  intros Hu Hc Hg Hcand Hf Hne Hu0 Hc0 Hx. simpl. unfold sent_by, after.
  pose proof (try_pair_gender_spec e u gender w Hg Hf) as Hspec.
  simpl in Hspec. rewrite Hu, Hcand in Hspec.
  destruct (Hspec Hc Hne) as [Hq1 Hac1].
  rewrite stop_computes. simpl. fold (after (try_pair_gender e u gender) w).
  rewrite Hq1, Hac1.
  apply Z.eqb_neq in Hu0 as Hu0'. apply Z.eqb_neq in Hc0 as Hc0'.
  destruct Hx as [-> | ->].
  - rewrite lookup_insert_ne, lookup_insert_eq by done. simpl.
    rewrite Hc0'. simpl. rewrite decide_True by done. repeat split.
    + rewrite (delete_insert_ne _ u c) by congruence.
      rewrite (delete_insert_id _ u) by done.
      rewrite (delete_insert_id _ c) by done. by rewrite delete_id.
    + by rewrite delete_delete_eq.
  - rewrite lookup_insert_eq. simpl. rewrite Hu0'. simpl.
    rewrite decide_False by done. repeat split.
    + rewrite (delete_insert_id _ c) by (by rewrite lookup_insert_ne).
      rewrite (delete_insert_id _ u) by done. by rewrite delete_id.
    + rewrite (delete_delete _ c u). by rewrite delete_delete_eq.
Qed.

Lemma pair_then_stop_restores_sessions_witness :
  let w1 := after (try_pair_gender (at_time 20) 1 "male") one_waiting in
  active_chats (after (stop 2) w1) = active_chats one_waiting
  ∧ sent_by w1 (after (stop 2) w1) [send_message 1 PartnerStopped None].
Proof.
  destruct (pair_then_stop_restores_sessions (at_time 20) 1 "male" one_waiting
              2 2) as (H1 & _ & H2);
    try reflexivity; try lia; [by left |].
  split; [exact H1 | exact H2].
Defined.

End round_trips.

(** ** Who a pairing request can affect *)

Section pairing_frame.

Implicit Types (w : world) (e : env) (gender : string) (u v c : Z).

(** X20.  One call of [try_pair_gender] touches the rows of at most two
    users: the caller and the user at the head of the opposite queue.
    Every other user's queue row, session row and declared gender are as
    before, on every path, also the failing ones. *)
Theorem try_pair_gender_touches_two e u gender w v :
  v ≠ u → candidate (opposite gender) w ≠ Some v →
  same_rows v w (after (try_pair_gender e u gender) w).
Proof.
  intros Hvu Hvc. unfold same_rows.
  rewrite try_pair_gender_keeps_genders. split; [|split; [|done]].
  - destruct (active_chats w !! u) as [r|] eqn:Hu.
    { unfold after. by rewrite (try_pair_gender_in_session e u gender w r). }
    destruct (decide (gender = "male"%string ∨ gender = "female"%string))
      as [Hg|Hg].
    + destruct (candidate (opposite gender) w) as [c|] eqn:Hc.
      * assert (Hne : v ≠ c) by congruence.
        destruct (pairing_fails e) eqn:Hf;
          [|destruct (decide (u = c)) as [Huc|Huc]].
        -- rewrite (try_pair_gender_failed e u gender w c) by auto.
           simpl. by rewrite lookup_delete_ne.
        -- rewrite (try_pair_gender_failed e u gender w c) by auto.
           simpl. by rewrite lookup_delete_ne.
        -- rewrite (try_pair_gender_paired e u gender w c) by auto.
           simpl. by rewrite lookup_delete_ne.
      * rewrite (try_pair_gender_queued e u gender w) by done.
        simpl. by rewrite lookup_insert_ne.
    + rewrite (try_pair_gender_other_gender e u gender w) by tauto.
      simpl. by rewrite lookup_insert_ne.
  - destruct (active_chats w !! u) as [r|] eqn:Hu.
    { unfold after. by rewrite (try_pair_gender_in_session e u gender w r). }
    destruct (decide (gender = "male"%string ∨ gender = "female"%string))
      as [Hg|Hg].
    + destruct (candidate (opposite gender) w) as [c|] eqn:Hc.
      * assert (Hne : v ≠ c) by congruence.
        destruct (pairing_fails e) eqn:Hf;
          [|destruct (decide (u = c)) as [Huc|Huc]].
        -- by rewrite (try_pair_gender_failed e u gender w c) by auto.
        -- by rewrite (try_pair_gender_failed e u gender w c) by auto.
        -- rewrite (try_pair_gender_paired e u gender w c) by auto.
           simpl. unfold touch.
           by rewrite !lookup_alter_ne, !upsert_chat_ne.
      * by rewrite (try_pair_gender_queued e u gender w).
    + by rewrite (try_pair_gender_other_gender e u gender w) by tauto.
Qed.

Lemma try_pair_gender_touches_two_witness :
  same_rows 1 queued_and_chatting
    (after (try_pair_gender (at_time 40) 3 "female") queued_and_chatting).
Proof.
  apply (try_pair_gender_touches_two (at_time 40) 3 "female"
           queued_and_chatting 1); [lia | by vm_compute].
Defined.

(** X21.  A declared gender that is neither of the two the code tests for
    is queued at once, without a look at either pool; the user is told to
    wait for a man; and since [get_queue] is only ever asked for the two
    known genders, no later request hands this user out. *)
Theorem unknown_gender_waits_unclaimed e u gender w :
  active_chats w !! u = None →
  gender ≠ "male"%string → gender ≠ "female"%string →
  let w' := after (try_pair_gender e u gender) w in
  queues w'
  = <[u := QueueRow gender (generate_pseudonym gender (draw1 e)) (now e)]>
      (queues w)
  ∧ active_chats w' = active_chats w
  ∧ sent_by w w'
      [send_message u (SearchingMale (generate_pseudonym gender (draw1 e)))
         (Some action_keyboard)]
  ∧ candidate "male" w' ≠ Some u ∧ candidate "female" w' ≠ Some u.
Proof.
  intros Hrow Hm Hf. simpl. unfold sent_by.
  rewrite (try_pair_gender_other_gender e u gender w) by done. simpl.
  repeat split; try done;
    intros (row & Hu & Hg & _)%candidate_oldest; simpl in Hu;
    rewrite lookup_insert_eq in Hu; injection Hu as <-; simpl in Hg; congruence.
Qed.

Lemma unknown_gender_waits_unclaimed_witness :
  let w' := after (try_pair_gender (at_time 20) 1 "other") one_waiting in
  is_Some (queues w' !! 1) ∧ is_Some (queues w' !! 2)
  ∧ active_chats w' = active_chats one_waiting.
Proof.
  destruct (unknown_gender_waits_unclaimed (at_time 20) 1 "other" one_waiting)
    as (H1 & H2 & _); [reflexivity | done | done |].
  split; [by eexists | split; [by eexists | exact H2]].
Defined.

End pairing_frame.

(** ** The sweep and what follows it *)

Section sweep_facts.

Implicit Types (w : world) (e : env) (m : message) (u v : Z).

(** X22.  A sweep touches the session table only and sends nothing.  It
    keeps every row that is at most five minutes old.  A user whose row
    was older loses it without being told: the next message of that user
    which the rate limiter lets through is answered with the no-partner
    notice and reaches no one. *)
Theorem sweep_expires_silently e e' w u (r : chat_row) m ct :
  active_chats w !! u = Some r →
  c_timestamp r + five_minutes < now e →
  from_user m = u →
  (is_rate_limited (now e') u (rate_limits w)).1 = false →
  let w1 := after (cleanup_inactive e) w in
  queues w1 = queues w ∧ user_genders w1 = user_genders w
  ∧ rate_limits w1 = rate_limits w ∧ sent w1 = sent w
  ∧ (∀ v rv, active_chats w !! v = Some rv →
             now e - five_minutes ≤ c_timestamp rv →
             active_chats w1 !! v = Some rv)
  ∧ sent_by w1 (after (handle_generic_message e' m ct) w1)
      [reply_to m NoPartner (Some action_keyboard)].
Proof.
  intros Hrow Hold Hm Hlim. simpl. unfold sent_by, after.
  rewrite handle_generic_message_computes.
  unfold cleanup_inactive, expire. unfold_m. simpl.
  repeat split; try done.
  - intros v rv Hv Hts. apply map_lookup_filter_Some. split; [done|]. simpl. lia.
  - rewrite Hm, Hlim.
    assert (Hgone : filter (λ kr : Z * chat_row,
                      ¬ c_timestamp kr.2 < now e - five_minutes)
                      (active_chats w) !! u = None).
    { apply map_lookup_filter_None. right. intros r' Hr'. simpl.
      rewrite Hrow in Hr'. injection Hr' as <-. lia. }
    by rewrite Hgone.
Qed.

Lemma sweep_expires_silently_witness :
  let w1 := after (cleanup_inactive (at_time 300000021)) two_chatting in
  sent w1 = sent two_chatting
  ∧ sent_by w1
      (after (handle_generic_message (at_time 300000030) (text_from 1 7 "hi")
                text_msg) w1)
      [reply_to (text_from 1 7 "hi") NoPartner (Some action_keyboard)].
Proof.
  destruct (sweep_expires_silently (at_time 300000021) (at_time 300000030)
              two_chatting 1 (ChatRow 2 20) (text_from 1 7 "hi") text_msg)
    as (_ & _ & _ & H1 & _ & H2); try reflexivity.
  split; [exact H1 | exact H2].
Defined.

End sweep_facts.

(** ** One user's calls and another user's limit *)

Section rate_limit_per_user.

(** X23.  The rate limit is per user: a call of one user neither changes
    the record of another user nor the answer the other user gets. *)
Theorem rate_limit_is_per_user (now t u v : Z) (rl : gmap Z (list Z)) :
  v ≠ u →
  stamps (is_rate_limited now u rl).2 v = stamps rl v
  ∧ (is_rate_limited t v (is_rate_limited now u rl).2).1
    = (is_rate_limited t v rl).1.
Proof.
  intros Hne.
  assert (H : stamps (is_rate_limited now u rl).2 v = stamps rl v).
  { rewrite stamps_after_call. by rewrite decide_False. }
  split; [done|]. unfold is_rate_limited at 1 3. rewrite H.
  by destruct (1 <=? _)%nat.
Qed.

Lemma rate_limit_is_per_user_witness :
  (is_rate_limited 5000100 8 (is_rate_limited 5000000 7 ∅).2).1 = false.
Proof.
  destruct (rate_limit_is_per_user 5000000 5000100 7 8 ∅) as [_ H]; [lia|].
  exact (eq_trans H eq_refl).
Defined.

End rate_limit_per_user.
